(** * watchtower: the CloudWatch Logs handler, its batching worker and its submitter

    A shallow embedding of [watchtower/__init__.py]: the handler object
    ([CloudWatchLogHandler]), [_idempotent_create], [_submit_batch], [emit],
    [batch_sender] and [flush], followed by the properties of the per-stream
    delivery pipeline.

    Conventions of the embedding.
    - A Python [str] is a sequence of Unicode code points ([pystr]); [len]
      is the length of that sequence.
    - A Python [dict] used as a map is a [gmap]; a value that may be the
      Python [None] is an [option].
    - Python integers are unbounded: [Z].  A Python [float] is an IEEE 754
      binary64 number: a primitive [float], with its rounding.
    - The remote service (the boto3 [logs] client) is an oracle: a function
      of the history of calls made so far and of the request.  Every call is
      appended, with its reply, to the history kept in the [world].
    - A method of the handler is a computation in the monad [M]: it reads and
      writes the handler object and the world, and returns or raises.
    - A worker thread sees its queue as the sequence of the outcomes of its
      [get] calls, each an item or a timeout, together with the readings of
      the clock; [batch_sender] is a function of that sequence.
    - A blocking call that may not return gives an [option]. *)

From Stdlib Require Import ZArith Floats List Sorting.Sorted Sorting.Permutation.
From stdpp Require Import base gmap strings list fin_maps.

Local Open Scope Z_scope.

(** ** Strings *)

(** A Python string: its code points, in order. *)
Definition pystr : Type := list N.

(** A string literal of the source (all of them are ASCII). *)
Definition str (s : string) : pystr :=
  map Ascii.N_of_ascii (String.list_ascii_of_string s).

(** [len(s)] *)
Definition len {A} (l : list A) : Z := Z.of_nat (length l).

(** [s.rsplit(" ", 1)[-1]]: what follows the last space of [s], all of [s]
    when it has no space. *)
Definition rsplit_last (s : pystr) : pystr :=
  fold_left (fun acc c => if (c =? 32)%N then [] else acc ++ [c]) s [].

(** The UTF-8 encoding of one code point, and of a string
    ([s.encode("utf-8")]); the bytes are numbers below 256. *)
Definition utf8_encode_char (c : N) : list N :=
  (if c <? 128 then [c]
   else if c <? 2048 then [192 + c / 64; 128 + c mod 64]
   else if c <? 65536 then [224 + c / 4096; 128 + (c / 64) mod 64; 128 + c mod 64]
   else [240 + c / 262144; 128 + (c / 4096) mod 64; 128 + (c / 64) mod 64;
         128 + c mod 64])%N.

Definition utf8_encode (s : pystr) : list N :=
  flat_map utf8_encode_char s.

(** ** Events *)

(** A normalised log event: [dict(timestamp=..., message=...)]. *)
Record event := Event {
  timestamp : Z;
  message : pystr
}.

(** An element of a stream's queue: an event, or the sentinel
    [CloudWatchLogHandler.END]. *)
Inductive item :=
| Msg (e : event)
| END.

(** [size(msg)], the local function of [batch_sender] (lines 138-139). *)
Definition size (msg : event) : Z :=
  len (message msg) + 26.

(** The size of an event as the remote protocol accounts it: the payload
    encoded as UTF-8, plus 26 bytes.  This follows the words of the
    specification (and of the handler's docstring), for comparison with
    [size]. *)
Definition protocol_size (msg : event) : Z :=
  len (utf8_encode (message msg)) + 26.

(** [sum(size(msg) for msg in batch)] *)
Definition batch_size (batch : list event) : Z :=
  fold_right (fun msg acc => size msg + acc) 0 batch.

(** ** Sorting *)

(** [sorted(batch, key=itemgetter('timestamp'), reverse=False)].  Python's
    [sorted] is stable; it is modelled by a stable insertion sort on the
    key. *)
Fixpoint insert_by_timestamp (e : event) (l : list event) : list event :=
  match l with
  | [] => [e]
  | x :: l' =>
      if timestamp x <=? timestamp e
      then x :: insert_by_timestamp e l'
      else e :: x :: l'
  end.

Definition sorted (batch : list event) : list event :=
  fold_left (fun acc e => insert_by_timestamp e acc) batch [].

(** ** The remote service *)

(** The [Error] part of a [ClientError]'s response:
    [e.response.get("Error", {}).get("Code")] may be [None]. *)
Record error_response := ErrorResponse {
  Code : option pystr;
  Message : pystr
}.

(** The reply of the service to an accepted call; a key that may be absent
    from the reply is an [option]. *)
Record response := Response {
  nextSequenceToken : option pystr;
  rejectedLogEventsInfo : option (list (pystr * Z))
}.

(** The keyword arguments of [put_log_events]; [sequenceToken] is [None]
    when the key is not set. *)
Record put_kwargs := PutKwargs {
  logGroupName : pystr;
  logStreamName : pystr;
  logEvents : list event;
  sequenceToken : option pystr
}.

Inductive request :=
| CreateLogGroup (group : pystr)
| CreateLogStream (group stream : pystr)
| PutLogEvents (kwargs : put_kwargs).

(** What a method can raise. *)
Inductive exn :=
| ClientError (e : error_response)
| DeliveryFailure (r : response)   (* Exception("Failed to deliver logs: ...") *)
| UnboundLocalError                (* [response] is read before it is bound *)
| KeyError (key : pystr)
| OtherError (what : pystr).       (* anything else the client raises *)

Inductive reply :=
| Returns (r : response)
| Raises (e : exn).

Inductive warning :=
| PyCWLWarning (text : pystr).

(** What the handler does to the outside: the calls to the service with
    their replies, the warnings issued, and the tracebacks a worker appended
    to its crash file; each in order. *)
Record world := World {
  calls : list (request * reply);
  warnings : list warning;
  crash_file : list exn
}.

(** ** The handler object *)

(** [Queue.Queue()]: the items not yet taken, and the counter that [put]
    increments, [task_done] decrements and [join] waits on. *)
Record queue := Queue {
  queue_items : list item;
  unfinished_tasks : nat
}.

Definition empty_queue : queue := Queue [] 0.

(** [q.put(x)] *)
Definition put (x : item) (q : queue) : queue :=
  Queue (queue_items q ++ [x]) (S (unfinished_tasks q)).

(** [q.join()] returns when every item put has been marked done;
    [None]: the caller is still blocked. *)
Definition join (q : queue) : option unit :=
  if Nat.eqb (unfinished_tasks q) 0 then Some tt else None.

(** A worker thread: [threading.Thread(target=self.batch_sender, args=...)].
    The queue argument is the object stored under the stream's name. *)
Record thread := Thread {
  thread_stream : pystr;
  thread_send_interval : Z;
  thread_max_batch_size : Z;
  thread_max_batch_count : Z;
  daemon : bool;
  started : bool
}.

Record handler := Handler {
  log_group : pystr;
  stream_name : option pystr;
  use_queues : bool;
  send_interval : Z;
  max_batch_size : Z;
  max_batch_count : Z;
  queues : gmap pystr queue;
  sequence_tokens : gmap pystr (option pystr);
  threads : list thread;
  shutting_down : bool
}.

Definition set_sequence_tokens (f : gmap pystr (option pystr) → gmap pystr (option pystr))
    (h : handler) : handler :=
  Handler (log_group h) (stream_name h) (use_queues h) (send_interval h)
          (max_batch_size h) (max_batch_count h) (queues h)
          (f (sequence_tokens h)) (threads h) (shutting_down h).

Definition set_queues (f : gmap pystr queue → gmap pystr queue) (h : handler) : handler :=
  Handler (log_group h) (stream_name h) (use_queues h) (send_interval h)
          (max_batch_size h) (max_batch_count h) (f (queues h))
          (sequence_tokens h) (threads h) (shutting_down h).

Definition set_threads (f : list thread → list thread) (h : handler) : handler :=
  Handler (log_group h) (stream_name h) (use_queues h) (send_interval h)
          (max_batch_size h) (max_batch_count h) (queues h)
          (sequence_tokens h) (f (threads h)) (shutting_down h).

Definition set_shutting_down (b : bool) (h : handler) : handler :=
  Handler (log_group h) (stream_name h) (use_queues h) (send_interval h)
          (max_batch_size h) (max_batch_count h) (queues h)
          (sequence_tokens h) (threads h) b.

(** ** The monad of the handler's methods *)

Record state := State {
  self : handler;
  outside : world
}.

Inductive result (A : Type) :=
| Return (a : A)
| Raise (e : exn).
Arguments Return {A} a.
Arguments Raise {A} e.

Definition M (A : Type) : Type := state → result A * state.

Definition ret {A} (a : A) : M A := fun s => (Return a, s).

Definition raise {A} (e : exn) : M A := fun s => (Raise e, s).

Definition bind {A B} (c : M A) (k : A → M B) : M B :=
  fun s => match c s with
           | (Return a, s') => k a s'
           | (Raise e, s') => (Raise e, s')
           end.

(** [try: c  except: h]; the handler re-raises what it does not catch. *)
Definition try_except {A} (c : M A) (h : exn → M A) : M A :=
  fun s => match c s with
           | (Return a, s') => (Return a, s')
           | (Raise e, s') => h e s'
           end.

Notation "x <- c1 ;; c2" := (bind c1 (fun x => c2))
  (at level 100, c1 at next level, right associativity).
Notation "c1 ;; c2" := (bind c1 (fun _ => c2))
  (at level 100, right associativity).

Definition get_self : M handler := fun s => (Return (self s), s).

Definition modify_self (f : handler → handler) : M unit :=
  fun s => (Return tt, State (f (self s)) (outside s)).

Definition warn (w : warning) : M unit :=
  fun s => (Return tt,
            State (self s)
                  (World (calls (outside s)) (warnings (outside s) ++ [w])
                         (crash_file (outside s)))).

Definition write_crash_file (e : exn) : M unit :=
  fun s => (Return tt,
            State (self s)
                  (World (calls (outside s)) (warnings (outside s))
                         (crash_file (outside s) ++ [e]))).

(** ** Log records *)

(** What [self.format(message)] may give: a string, or a mapping, which
    [emit] serialises with [json.dumps]. *)
Inductive rendered :=
| Text (s : pystr)
| Mapping (m : list (pystr * pystr)).

(** A [logging.LogRecord], as far as [emit] reads it; [created] is the
    [float] that [time.time()] gave. *)
Record LogRecord := {
  name : pystr;
  created : float
}.

(** [int(x)] on a [float]: truncation towards zero; [OverflowError] on an
    infinity and [ValueError] on a NaN. *)
Definition int (x : float) : result Z :=
  match Prim2SF x with
  | S754_zero _ => Return 0
  | S754_infinity _ => Raise (OtherError (str "OverflowError"))
  | S754_nan => Raise (OtherError (str "ValueError"))
  | S754_finite negative m e =>
      let magnitude :=
        if 0 <=? e then Z.pos m * 2 ^ e else Z.pos m / 2 ^ (- e) in
      Return (if negative then - magnitude else magnitude)
  end.

(** A call that returns or raises without touching the state. *)
Definition lift {A} (r : result A) : M A := fun s => (r, s).

(** ** The worker's view of its queue and of the clock *)

(** One iteration of the worker's inner loop observes the outcome of
    [my_queue.get(block=True, timeout=...)], which is an item or
    [Queue.Empty] ([None]), then the clock in the flush test (line 157) and,
    when the batch is flushed and a new one is started, the clock at line
    146.  The timeout handed to [get] only decides how long the call may
    block; what it returned is [got]. *)
Record poll := Poll {
  got : option item;
  clock_at_test : Z;
  clock_at_restart : Z
}.

(** The local variables of [batch_sender] that describe the current batch. *)
Record sender_state := SenderState {
  cur_batch : list event;
  cur_batch_size : Z;
  cur_batch_msg_count : Z;
  cur_batch_deadline : Z
}.

(** How a run of the worker over finitely many polls ends. *)
Inductive outcome :=
| Finished                      (* the sentinel was received: the loop ended *)
| Waiting (st : sender_state)   (* still in the inner loop *)
| Crashed (e : exn).            (* an exception reached the [except:] clause *)

(** What the worker did: the batches it passed to [_submit_batch], in order,
    and the number of its calls to [my_queue.task_done()]. *)
Record run := Run {
  handed : list (list event);
  tasks_done : nat;
  ending : outcome
}.

Definition after_flush (batch : list event) (done : nat) (r : run) : run :=
  Run (batch :: handed r) (done + tasks_done r) (ending r).

Definition after_append (r : run) : run :=
  Run (handed r) (S (tasks_done r)) (ending r).

Section Handler.

(** The boto3 [logs] client: its reply to a request, given the calls made
    before. *)
Variable cwl_client : list (request * reply) → request → reply.

(** [logging.Handler.format] and [json.dumps]; either may raise. *)
Variable format : LogRecord → result rendered.
Variable json_dumps : list (pystr * pystr) → result pystr.

(** A call to the client: the reply is that of the service, and the call is
    recorded. *)
Definition call (rq : request) : M response :=
  fun s =>
    let rp := cwl_client (calls (outside s)) rq in
    let s' := State (self s)
                    (World (calls (outside s) ++ [(rq, rp)])
                           (warnings (outside s)) (crash_file (outside s))) in
    match rp with
    | Returns r => (Return r, s')
    | Raises e => (Raise e, s')
    end.

(** [_idempotent_create(_callable, *args, **kwargs)] (lines 16-21). *)
Definition _idempotent_create {A} (_callable : M A) : M unit :=
  try_except (_callable ;; ret tt)
    (fun x =>
       match x with
       | ClientError e =>
           if bool_decide (Code e ≠ Some (str "ResourceAlreadyExistsException"))
           then raise x
           else ret tt
       | _ => raise x
       end).

(** [CloudWatchLogHandler.__init__] (lines 63-79). *)
Definition __init__ (log_group : pystr) (stream_name : option pystr)
    (use_queues : bool) (send_interval max_batch_size max_batch_count : Z)
    (create_log_group : bool) : M unit :=
  modify_self (fun _ =>
    Handler log_group stream_name use_queues send_interval max_batch_size
            max_batch_count ∅ ∅ [] false) ;;
  if create_log_group
  then _idempotent_create (call (CreateLogGroup log_group))
  else ret tt.

(** The test of line 95-96. *)
Definition stale_token (e : error_response) : bool :=
  bool_decide (Code e = Some (str "DataAlreadyAcceptedException"))
  || bool_decide (Code e = Some (str "InvalidSequenceTokenException")).

Definition with_sequenceToken (token : pystr) (kwargs : put_kwargs) : put_kwargs :=
  PutKwargs (logGroupName kwargs) (logStreamName kwargs) (logEvents kwargs)
            (Some token).

(** The loop of lines 90-99, by the number of iterations left; [None] when
    the loop ends without [break], so that [response] was never bound. *)
Fixpoint put_with_retries (retries : nat) (kwargs : put_kwargs) : M (option response) :=
  match retries with
  | O => ret None
  | S retries' =>
      try_except
        (response <- call (PutLogEvents kwargs) ;; ret (Some response))
        (fun x =>
           match x with
           | ClientError e =>
               if stale_token e
               then put_with_retries retries'
                      (with_sequenceToken (rsplit_last (Message e)) kwargs)
               else raise x
           | _ => raise x
           end)
  end.

(** The default of [max_retries] in [_submit_batch]. *)
Definition default_max_retries : Z := 5.

(** [CloudWatchLogHandler._submit_batch] (lines 81-103). *)
Definition _submit_batch (batch : list event) (stream_name : pystr)
    (max_retries : Z) : M unit :=
  if len batch <? 1 then ret tt
  else
    let sorted_batch := sorted batch in
    h <- get_self ;;
    let kwargs := PutKwargs (log_group h) stream_name sorted_batch None in
    match sequence_tokens h !! stream_name with
    | None => raise (KeyError stream_name)
    | Some token =>
        let kwargs :=
          match token with
          | Some t => with_sequenceToken t kwargs
          | None => kwargs
          end in
        response <- put_with_retries (Z.to_nat max_retries) kwargs ;;
        match response with
        | None => raise UnboundLocalError
        | Some response =>
            match rejectedLogEventsInfo response with
            | Some _ => raise (DeliveryFailure response)
            | None => ret tt
            end
        end
    end.

(** [CloudWatchLogHandler.emit] (lines 105-131). *)
Definition emit (message : LogRecord) : M unit :=
  h <- get_self ;;
  let stream_name :=
    match stream_name h with
    | None => name message
    | Some s => s
    end in
  (match sequence_tokens h !! stream_name with
   | None =>
       _idempotent_create (call (CreateLogStream (log_group h) stream_name)) ;;
       modify_self (set_sequence_tokens (insert stream_name None))
   | Some _ => ret tt
   end) ;;
  timestamp <- lift (int (created message * 1000)) ;;
  formatted <- lift (format message) ;;
  text <- lift (match formatted with
                | Text s => Return s
                | Mapping m => json_dumps m
                end) ;;
  let msg := Event timestamp text in
  h <- get_self ;;
  if use_queues h then
    (match queues h !! stream_name with
     | None =>
         modify_self (set_queues (insert stream_name empty_queue)) ;;
         modify_self (set_threads (fun ts =>
           ts ++ [Thread stream_name (send_interval h) (max_batch_size h)
                         (max_batch_count h) true true]))
     | Some _ => ret tt
     end) ;;
    h <- get_self ;;
    if shutting_down h
    then warn (PyCWLWarning (str "Received message after logging system shutdown"))
    else modify_self (set_queues (alter (put (Msg msg)) stream_name))
  else _submit_batch [msg] stream_name default_max_retries.

(** The head of the outer loop of [batch_sender] (lines 143-146); [msg] is
    the item carried over from the flush, if any. *)
Definition new_batch (msg : option event) (now : Z) (send_interval : Z) : sender_state :=
  let cur_batch := match msg with None => [] | Some m => [m] end in
  SenderState cur_batch (batch_size cur_batch) (len cur_batch)
              (now + send_interval).

(** The test of lines 153-157. *)
Definition must_flush (st : sender_state) (msg : option item) (now : Z)
    (max_batch_size max_batch_count : Z) : bool :=
  match msg with
  | None => true
  | Some END => true
  | Some (Msg m) =>
      (cur_batch_size st + size m >? max_batch_size)
      || (cur_batch_msg_count st >=? max_batch_count)
      || (now >=? cur_batch_deadline st)
  end.

(** The loops of [batch_sender] (lines 142-167), over the successive
    outcomes of [my_queue.get], with the state passed along.  An exception of
    [_submit_batch] leaves both loops and reaches the [except:] clause of
    lines 168-170, which appends the traceback to the crash file; so the
    worker itself never raises. *)
Fixpoint sender_loop (stream_name : pystr)
    (send_interval max_batch_size max_batch_count : Z)
    (st : sender_state) (my_queue : list poll) (s : state) : run * state :=
  match my_queue with
  | [] => (Run [] 0 (Waiting st), s)
  | p :: rest =>
      let msg := got p in
      if must_flush st msg (clock_at_test p) max_batch_size max_batch_count
      then
        match _submit_batch (cur_batch st) stream_name default_max_retries s with
        | (Raise x, s1) =>
            (Run [cur_batch st] 0 (Crashed x), (write_crash_file x s1).2)
        | (Return _, s1) =>
            match msg with
            | Some END => (Run [cur_batch st] 1 Finished, s1)
            | Some (Msg m) =>
                let (r, s2) :=
                  sender_loop stream_name send_interval max_batch_size
                    max_batch_count
                    (new_batch (Some m) (clock_at_restart p) send_interval)
                    rest s1 in
                (after_flush (cur_batch st) 1 r, s2)
            | None =>
                let (r, s2) :=
                  sender_loop stream_name send_interval max_batch_size
                    max_batch_count
                    (new_batch None (clock_at_restart p) send_interval)
                    rest s1 in
                (after_flush (cur_batch st) 0 r, s2)
            end
        end
      else
        match msg with
        | Some (Msg m) =>
            let (r, s2) :=
              sender_loop stream_name send_interval max_batch_size
                max_batch_count
                (SenderState (cur_batch st ++ [m])
                             (cur_batch_size st + size m)
                             (cur_batch_msg_count st + 1)
                             (cur_batch_deadline st))
                rest s in
            (after_append r, s2)
        | _ =>
            sender_loop stream_name send_interval max_batch_size
              max_batch_count st rest s
        end
  end.

(** [CloudWatchLogHandler.batch_sender] (lines 133-170); [start] is the
    clock when the first batch is opened. *)
Definition batch_sender (my_queue : list poll) (start : Z) (stream_name : pystr)
    (send_interval max_batch_size max_batch_count : Z) (s : state) : run * state :=
  sender_loop stream_name send_interval max_batch_size max_batch_count
    (new_batch None start send_interval) my_queue s.

(** [CloudWatchLogHandler.flush] (lines 172-177).  First the flag and the
    sentinels (lines 173-175).  Then the joins (lines 176-177): the caller is
    blocked while the worker threads run, and [workers] is what they do to
    the state in the meantime; the joins return if then every queue has all
    its items marked done.  [None]: a join is still blocked. *)
Definition flush_signal : M unit :=
  modify_self (set_shutting_down true) ;;
  modify_self (set_queues (fmap (put END))).

Definition flush_joined (h : handler) : bool :=
  bool_decide (map_Forall (fun _ q => join q = Some tt) (queues h)).

Definition flush (workers : state → state) (s : state) : option (result unit * state) :=
  match flush_signal s with
  | (Return _, s1) =>
      let s2 := workers s1 in
      if flush_joined (self s2) then Some (Return tt, s2) else None
  | (Raise x, s1) => Some (Raise x, s1)
  end.

End Handler.

(** ** Vocabulary of the properties *)

Definition by_timestamp (a b : event) : Prop := timestamp a <= timestamp b.

(** The events of [l] whose timestamp is [t], in the order of [l]. *)
Definition with_timestamp (t : Z) (l : list event) : list event :=
  List.filter (fun e => timestamp e =? t) l.

(** The state [s] after the calls [tr] were made and recorded; nothing else
    changed. *)
Definition record_calls (tr : list (request * reply)) (s : state) : state :=
  State (self s)
        (World (calls (outside s) ++ tr) (warnings (outside s))
               (crash_file (outside s))).

(** The calls of one run of the retry loop with [n] iterations allowed,
    starting from the arguments [kw], and how the loop ends. *)
Inductive retry_trace :
  nat → put_kwargs → list (request * reply) → result (option response) → Prop :=
| retry_exhausted kw :
    retry_trace 0 kw [] (Return None)
| retry_accepted n kw r :
    retry_trace (S n) kw [(PutLogEvents kw, Returns r)] (Return (Some r))
| retry_stale n kw e tr res :
    stale_token e = true →
    retry_trace n (with_sequenceToken (rsplit_last (Message e)) kw) tr res →
    retry_trace (S n) kw ((PutLogEvents kw, Raises (ClientError e)) :: tr) res
| retry_fatal n kw x :
    (∀ e, x = ClientError e → stale_token e = false) →
    retry_trace (S n) kw [(PutLogEvents kw, Raises x)] (Raise x).

(** What [_submit_batch] does with the outcome of the loop (lines 101-103). *)
Definition after_loop (res : result (option response)) : result unit :=
  match res with
  | Return None => Raise UnboundLocalError
  | Return (Some r) =>
      match rejectedLogEventsInfo r with
      | Some _ => Raise (DeliveryFailure r)
      | None => Return tt
      end
  | Raise x => Raise x
  end.

(** The items the worker received, in order: the polls that timed out give
    nothing. *)
Definition received (my_queue : list poll) : list item := omap got my_queue.

(** A batch is within the limits, or is a single event (or none). *)
Definition within_limits (max_batch_size max_batch_count : Z) (b : list event) : Prop :=
  len b <= 1 ∨ (len b <= max_batch_count ∧ batch_size b <= max_batch_size).

(** The counters of the worker agree with its batch. *)
Definition consistent (max_batch_size max_batch_count : Z) (st : sender_state) : Prop :=
  cur_batch_size st = batch_size (cur_batch st)
  ∧ cur_batch_msg_count st = len (cur_batch st)
  ∧ within_limits max_batch_size max_batch_count (cur_batch st).

(** The stream a record goes to (lines 106-108). *)
Definition target_stream (h : handler) (message : LogRecord) : pystr :=
  match stream_name h with
  | None => name message
  | Some s => s
  end.

(** The create call returned, or failed because the resource exists. *)
Definition created_or_exists (rp : reply) : Prop :=
  match rp with
  | Returns _ => True
  | Raises (ClientError e) => Code e = Some (str "ResourceAlreadyExistsException")
  | Raises _ => False
  end.

Definition late_warning : warning :=
  PyCWLWarning (str "Received message after logging system shutdown").

(** ** Sample environments and inputs *)

(** A service that accepts every call; each accepted call returns the
    sequencing token ["T1"]. *)
Definition accepting_client (_ : list (request * reply)) (_ : request) : reply :=
  Returns (Response (Some (str "T1")) None).

(** A service that rejects every [put_log_events] with [AccessDenied]. *)
Definition denying_client (_ : list (request * reply)) (rq : request) : reply :=
  match rq with
  | PutLogEvents _ =>
      Raises (ClientError (ErrorResponse (Some (str "AccessDeniedException"))
                                         (str "not authorized")))
  | _ => Returns (Response None None)
  end.

(** A service on which the stream exists already, and which rejects the
    first [put_log_events] with a stale token, then accepts. *)
Definition stale_once_client (history : list (request * reply)) (rq : request) : reply :=
  match rq with
  | PutLogEvents _ =>
      if bool_decide (history = [])
      then Raises (ClientError
             (ErrorResponse (Some (str "InvalidSequenceTokenException"))
                (str "The given sequenceToken is invalid. The next expected sequenceToken is: 4957")))
      else Returns (Response (Some (str "4958")) None)
  | _ =>
      Raises (ClientError
        (ErrorResponse (Some (str "ResourceAlreadyExistsException"))
                       (str "The specified log stream already exists")))
  end.

Definition plain_format (r : LogRecord) : result rendered := Return (Text (name r)).
Definition no_json (_ : list (pystr * pystr)) : result pystr := Return [].

(** A formatter that raises on every record. *)
Definition failing_format (_ : LogRecord) : result rendered :=
  Raise (OtherError (str "TypeError")).

(** A formatter that raises on the records of the logger ["web"]. *)
Definition picky_format (r : LogRecord) : result rendered :=
  if decide (name r = str "web")
  then Raise (OtherError (str "TypeError"))
  else Return (Text (name r)).

Definition sample_handler (use_queues shutting_down : bool)
    (max_batch_size max_batch_count : Z) : handler :=
  Handler (str "watchtower") None use_queues 60 max_batch_size max_batch_count
          ∅ ∅ [] shutting_down.

(** A handler that knows the stream ["web"], whose token is "none yet". *)
Definition web_handler (max_batch_size max_batch_count : Z) : handler :=
  Handler (str "watchtower") None true 60 max_batch_size max_batch_count
          (<[str "web" := empty_queue]> ∅) (<[str "web" := None]> ∅) [] false.

Definition quiet : world := World [] [] [].

Definition payload (n : nat) : pystr := repeat 120%N n.

Definition ev (t : Z) (s : string) : event := Event t (str s).

Definition arrives (e : event) : poll := Poll (Some (Msg e)) 0 0.
Definition sentinel : poll := Poll (Some END) 0 0.
Definition timeout : poll := Poll None 60 60.

Definition web_state : state := State (web_handler 1000 3) quiet.

Definition db_record : LogRecord := Build_LogRecord (str "db") 1.5.

(** Unfolding of the methods, down to the calls of the client and of the
    submitter. *)
Ltac run_method :=
  unfold bind, get_self, modify_self, warn, ret, raise;
  cbn [self outside queues sequence_tokens threads shutting_down use_queues
       log_group send_interval max_batch_size max_batch_count stream_name
       set_queues set_sequence_tokens set_threads set_shutting_down
       record_calls calls warnings crash_file fst snd].

(** ** Further vocabulary *)

(** A call that the service rejected with a stale or duplicate token. *)
Definition stale_rejection (c : request * reply) : Prop :=
  ∃ kw e, c = (PutLogEvents kw, Raises (ClientError e)) ∧ stale_token e = true.

(** A service that rejects every [put_log_events] with a stale token. *)
Definition always_stale_client (_ : list (request * reply)) (rq : request) : reply :=
  match rq with
  | PutLogEvents _ =>
      Raises (ClientError
        (ErrorResponse (Some (str "DataAlreadyAcceptedException"))
           (str "The given batch of log events has already been accepted. The next batch can be sent with sequenceToken: 77")))
  | _ => Returns (Response None None)
  end.

(** A service that accepts a batch but reports rejected events. *)
Definition partly_rejecting_client (_ : list (request * reply)) (_ : request) : reply :=
  Returns (Response (Some (str "T2")) (Some [(str "tooOldLogEventEndIndex", 0)])).

(** What a worker that ended in this way appended to its crash file. *)
Definition crash_entries (o : outcome) : list exn :=
  match o with
  | Crashed x => [x]
  | _ => []
  end.

(** The event that [emit] builds from a record (lines 114-116), or what
    building it raises: the timestamp first, then the formatting, then the
    serialisation of a mapping. *)
Definition event_of (format : LogRecord → result rendered)
    (json_dumps : list (pystr * pystr) → result pystr)
    (message : LogRecord) : result event :=
  match int (created message * 1000) with
  | Raise x => Raise x
  | Return timestamp =>
      match format message with
      | Raise x => Raise x
      | Return (Text s) => Return (Event timestamp s)
      | Return (Mapping m) =>
          match json_dumps m with
          | Raise x => Raise x
          | Return s => Return (Event timestamp s)
          end
      end
  end.

(** The application calls [emit] for each record in turn; what a call raises
    goes to its caller and the next call finds the state the call left. *)
Fixpoint emit_all (cwl_client : list (request * reply) → request → reply)
    (format : LogRecord → result rendered)
    (json_dumps : list (pystr * pystr) → result pystr)
    (records : list LogRecord) (s : state) : state :=
  match records with
  | [] => s
  | r :: rest =>
      emit_all cwl_client format json_dumps rest
               (emit cwl_client format json_dumps r s).2
  end.

(** The items waiting in the queue of a stream; none if it has no queue. *)
Definition items_of (h : handler) (stream : pystr) : list item :=
  match queues h !! stream with
  | Some q => queue_items q
  | None => []
  end.

(** The registries of the handler agree: a stream that has a queue has a
    sequencing token, and has exactly one worker thread. *)
Definition registry_ok (h : handler) : Prop :=
  (∀ k, is_Some (queues h !! k) → is_Some (sequence_tokens h !! k))
  ∧ (∀ k, In k (map thread_stream (threads h)) ↔ is_Some (queues h !! k))
  ∧ NoDup (map thread_stream (threads h)).

Definition web_record : LogRecord := Build_LogRecord (str "web") 2.5.

(** A record of the logger ["web"] created at 1700000000.428, that is, at
    the double nearest to this number. *)
Definition dated_record : LogRecord :=
  Build_LogRecord (str "web") 0x1.954fc401b645ap+30.

Definition open_state : state := State (sample_handler true false 100 3) quiet.


(** The event of a record, when building it does not raise. *)
Definition built (format : LogRecord → result rendered)
    (json_dumps : list (pystr * pystr) → result pystr)
    (message : LogRecord) : option event :=
  match event_of format json_dumps message with
  | Return e => Some e
  | Raise _ => None
  end.

(** What the submission of a batch sends to the service: nothing for an
    empty batch (lines 82-83), otherwise the batch sorted (line 84). *)
Definition sent (batch : list event) : list (list event) :=
  match batch with
  | [] => []
  | _ => [sorted batch]
  end.

(** The event lists that the service took in full: those of the
    [put_log_events] calls that returned with no [rejectedLogEventsInfo] in
    the reply, in the order of the calls. *)
Definition delivered (tr : list (request * reply)) : list (list event) :=
  omap (fun c =>
          match c with
          | (PutLogEvents kwargs, Returns r) =>
              match rejectedLogEventsInfo r with
              | None => Some (logEvents kwargs)
              | Some _ => None
              end
          | _ => None
          end) tr.

(** A queue after its worker took from it the items received over the polls
    [my_queue] and called [task_done] as often as the run [r] counts. *)
Definition served (my_queue : list poll) (r : run) (q : queue) : queue :=
  Queue (drop (length (received my_queue)) (queue_items q))
        (unfinished_tasks q - tasks_done r)%nat.

(** What the worker thread of [stream] does to the state while [flush]
    waits in its joins, on the schedule where the worker takes all of its
    items then: it runs [batch_sender] with the arguments the thread was
    created with (lines 120-122), over the polls [my_queue], and its queue is
    left as served. *)
Definition run_worker (cwl_client : list (request * reply) → request → reply)
    (my_queue : list poll) (start : Z) (stream : pystr) (s : state) : state :=
  match queues (self s) !! stream with
  | None => s
  | Some q =>
      let h := self s in
      let out := batch_sender cwl_client my_queue start stream (send_interval h)
                   (max_batch_size h) (max_batch_count h) s in
      State (set_queues (insert stream (served my_queue out.1 q)) (self out.2))
            (outside out.2)
  end.

(** * Properties *)

(** ** Sizes *)

Lemma len_app {A} (l1 l2 : list A) : len (l1 ++ l2) = len l1 + len l2.
Proof. unfold len. rewrite length_app. lia. Qed.

Lemma len_nonneg {A} (l : list A) : 0 <= len l.
Proof. unfold len. lia. Qed.

Lemma batch_size_app (b1 b2 : list event) :
  batch_size (b1 ++ b2) = batch_size b1 + batch_size b2.
Proof.
  induction b1 as [|e b1 IH]; simpl; [reflexivity|].
  rewrite IH. lia.
Qed.

(** On a payload of ASCII characters the two accountings agree. *)
Lemma utf8_encode_ascii (s : pystr) :
  Forall (fun c => (c < 128)%N) s → utf8_encode s = s.
Proof.
  induction 1 as [|c s Hc _ IH]; [reflexivity|].
  change (utf8_encode (c :: s)) with (utf8_encode_char c ++ utf8_encode s).
  rewrite IH. unfold utf8_encode_char.
  apply N.ltb_lt in Hc. rewrite Hc. reflexivity.
Qed.

Lemma size_ascii (msg : event) :
  Forall (fun c => (c < 128)%N) (message msg) → size msg = protocol_size msg.
Proof.
  intros H. unfold size, protocol_size. rewrite (utf8_encode_ascii _ H).
  reflexivity.
Qed.

(** C4, at its failing input.  The payload is the one-character string
    U+00E9: the worker accounts 27 bytes for the event, where the payload
    encoded as UTF-8 plus 26 bytes is 28. *)
Theorem size_counts_code_points :
  size (Event 0 [233%N]) = 27 ∧ protocol_size (Event 0 [233%N]) = 28.
Proof. split; reflexivity. Qed.

(** ** Sorting *)

Lemma insert_by_timestamp_perm e l :
  Permutation (insert_by_timestamp e l) (e :: l).
Proof.
  induction l as [|x l IH]; simpl; [reflexivity|].
  destruct (timestamp x <=? timestamp e).
  - rewrite IH. apply perm_swap.
  - reflexivity.
Qed.

Lemma insert_by_timestamp_sorted e l :
  StronglySorted by_timestamp l →
  StronglySorted by_timestamp (insert_by_timestamp e l).
Proof.
  induction 1 as [|x l Hs IH Hx]; simpl.
  - repeat constructor.
  - destruct (timestamp x <=? timestamp e) eqn:Hle.
    + constructor; [exact IH|].
      rewrite (insert_by_timestamp_perm e l). constructor; [|exact Hx].
      apply Z.leb_le in Hle. exact Hle.
    + apply Z.leb_gt in Hle.
      constructor; [constructor; assumption|].
      constructor; [unfold by_timestamp; lia|].
      eapply List.Forall_impl; [|exact Hx].
      unfold by_timestamp. intros a Ha. simpl in Ha. lia.
Qed.

Lemma with_timestamp_above t l :
  Forall (fun x => t < timestamp x) l → with_timestamp t l = [].
Proof.
  induction 1 as [|x l Hx _ IH]; simpl; [reflexivity|].
  destruct (timestamp x =? t) eqn:E; [apply Z.eqb_eq in E; lia|exact IH].
Qed.

Lemma with_timestamp_cons t x l :
  with_timestamp t (x :: l) =
  (if timestamp x =? t then [x] else []) ++ with_timestamp t l.
Proof. unfold with_timestamp. simpl. destruct (timestamp x =? t); reflexivity. Qed.

Lemma insert_by_timestamp_stable t e l :
  StronglySorted by_timestamp l →
  with_timestamp t (insert_by_timestamp e l) =
  with_timestamp t l ++ with_timestamp t [e].
Proof.
  induction 1 as [|x l Hs IH Hx]; [reflexivity|].
  cbn [insert_by_timestamp].
  destruct (timestamp x <=? timestamp e) eqn:Hle.
  - rewrite !with_timestamp_cons, IH, with_timestamp_cons, app_assoc.
    reflexivity.
  - apply Z.leb_gt in Hle.
    rewrite (with_timestamp_cons t e (x :: l)), (with_timestamp_cons t e []).
    destruct (timestamp e =? t) eqn:Et.
    + apply Z.eqb_eq in Et.
      rewrite (with_timestamp_above t (x :: l)); [reflexivity|].
      constructor; [lia|].
      eapply List.Forall_impl; [|exact Hx]. unfold by_timestamp.
      intros a Ha. simpl in Ha. lia.
    + cbn [app with_timestamp List.filter]. rewrite app_nil_r. reflexivity.
Qed.

Lemma with_timestamp_app t l1 l2 :
  with_timestamp t (l1 ++ l2) = with_timestamp t l1 ++ with_timestamp t l2.
Proof. unfold with_timestamp. apply List.filter_app. Qed.

(** The three facts about the sort, for any sorted accumulator. *)
Lemma sort_from_spec (l acc : list event) :
  StronglySorted by_timestamp acc →
  let out := fold_left (fun acc e => insert_by_timestamp e acc) l acc in
  StronglySorted by_timestamp out
  ∧ Permutation out (acc ++ l)
  ∧ ∀ t, with_timestamp t out = with_timestamp t acc ++ with_timestamp t l.
Proof.
  revert acc. induction l as [|e l IH]; intros acc Hacc; cbn [fold_left].
  - rewrite app_nil_r. repeat split; auto.
    intros t. rewrite app_nil_r. reflexivity.
  - destruct (IH (insert_by_timestamp e acc)
                (insert_by_timestamp_sorted e acc Hacc)) as (Hs & Hp & Hf).
    repeat split; [exact Hs| |].
    + rewrite Hp, (insert_by_timestamp_perm e acc).
      change (e :: acc) with ([e] ++ acc).
      rewrite (Permutation_app_comm [e] acc), <- app_assoc. reflexivity.
    + intros t. rewrite Hf, (insert_by_timestamp_stable t e acc Hacc).
      rewrite <- app_assoc, <- with_timestamp_app. reflexivity.
Qed.

Lemma sorted_spec (batch : list event) :
  StronglySorted by_timestamp (sorted batch)
  ∧ Permutation (sorted batch) batch
  ∧ ∀ t, with_timestamp t (sorted batch) = with_timestamp t batch.
Proof.
  destruct (sort_from_spec batch [] (SSorted_nil _)) as (Hs & Hp & Hf).
  repeat split; assumption.
Qed.

Lemma batch_size_perm (b1 b2 : list event) :
  Permutation b1 b2 → batch_size b1 = batch_size b2.
Proof.
  induction 1; simpl; try lia.
Qed.

Lemma sorted_same_limits (batch : list event) :
  len (sorted batch) = len batch ∧ batch_size (sorted batch) = batch_size batch.
Proof.
  destruct (sorted_spec batch) as (_ & Hp & _). split.
  - unfold len. rewrite (Permutation_length Hp). reflexivity.
  - apply batch_size_perm, Hp.
Qed.

Lemma insert_after_smaller e acc l :
  StronglySorted by_timestamp (acc ++ e :: l) →
  insert_by_timestamp e acc = acc ++ [e].
Proof.
  induction acc as [|x acc IH]; intros Hs; simpl; [reflexivity|].
  simpl in Hs. apply StronglySorted_inv in Hs as [Hs Hx].
  assert (Hle : timestamp x <= timestamp e).
  { rewrite List.Forall_forall in Hx. apply (Hx e).
    apply in_or_app. right. left. reflexivity. }
  apply Z.leb_le in Hle. rewrite Hle, (IH Hs). reflexivity.
Qed.

Lemma sort_from_in_order l acc :
  StronglySorted by_timestamp (acc ++ l) →
  fold_left (fun acc e => insert_by_timestamp e acc) l acc = acc ++ l.
Proof.
  revert acc. induction l as [|e l IH]; intros acc Hs; simpl.
  - rewrite app_nil_r. reflexivity.
  - rewrite (insert_after_smaller e acc l Hs), IH.
    + rewrite <- app_assoc. reflexivity.
    + rewrite <- app_assoc. exact Hs.
Qed.


(** ** What is sent and what is delivered *)



Lemma delivered_app tr1 tr2 :
  delivered (tr1 ++ tr2) = delivered tr1 ++ delivered tr2.
Proof. apply omap_app. Qed.

(** ** The submitter *)

Lemma record_calls_nil s : record_calls [] s = s.
Proof.
  destruct s as [h [c w f]]. unfold record_calls. simpl.
  rewrite app_nil_r. reflexivity.
Qed.

Lemma record_calls_app tr1 tr2 s :
  record_calls tr2 (record_calls tr1 s) = record_calls (tr1 ++ tr2) s.
Proof. unfold record_calls. simpl. rewrite app_assoc. reflexivity. Qed.

Lemma retry_trace_length n kw tr res :
  retry_trace n kw tr res → (length tr <= n)%nat.
Proof. induction 1; simpl; lia. Qed.

Lemma retry_trace_first n kw tr res :
  retry_trace (S n) kw tr res → ∃ rp tl, tr = (PutLogEvents kw, rp) :: tl.
Proof. inversion 1; subst; eauto. Qed.

(** Every call of the loop is a [put_log_events] for the same group and
    stream, with the same event list. *)
Lemma retry_trace_requests n kw tr res :
  retry_trace n kw tr res →
  Forall (fun c => ∃ token,
            c.1 = PutLogEvents (PutKwargs (logGroupName kw) (logStreamName kw)
                                          (logEvents kw) token)) tr.
Proof.
  induction 1 as [kw|n kw r|n kw e tr res He Htr IH|n kw x Hx].
  - constructor.
  - constructor; [|constructor]. exists (sequenceToken kw). destruct kw; reflexivity.
  - constructor; [|exact IH]. exists (sequenceToken kw). destruct kw; reflexivity.
  - constructor; [|constructor]. exists (sequenceToken kw). destruct kw; reflexivity.
Qed.

(** After a stale-token rejection the next iteration, if one is left, calls
    with the token taken from the rejection. *)
Lemma retry_trace_retry n kw tr res :
  retry_trace n kw tr res →
  ∀ (i : nat) kw_i e,
    tr !! i = Some (PutLogEvents kw_i, Raises (ClientError e)) →
    stale_token e = true →
    (S i < n)%nat →
    ∃ rp, tr !! S i =
          Some (PutLogEvents (with_sequenceToken (rsplit_last (Message e)) kw_i), rp).
Proof.
  induction 1 as [kw|n kw r|n kw e0 tr res He Htr IH|n kw x Hx];
    intros i kw_i e Hi Hstale Hlt.
  - discriminate.
  - destruct i; simpl in Hi; [discriminate|]. destruct i; discriminate.
  - destruct i as [|i]; simpl in Hi.
    + injection Hi as -> ->. simpl.
      destruct n as [|n]; [lia|].
      destruct (retry_trace_first _ _ _ _ Htr) as (rp & tl & ->).
      exists rp. reflexivity.
    + simpl. apply (IH i kw_i e Hi Hstale). lia.
  - destruct i; simpl in Hi.
    + injection Hi as -> ->. rewrite (Hx e eq_refl) in Hstale. discriminate.
    + destruct i; discriminate.
Qed.

(** A rejection that is not a stale token ends the loop: it is the last call
    and it is what the loop raises. *)
Lemma retry_trace_fatal n kw tr res :
  retry_trace n kw tr res →
  ∀ (i : nat) kw_i x,
    tr !! i = Some (PutLogEvents kw_i, Raises x) →
    (∀ e, x = ClientError e → stale_token e = false) →
    res = Raise x ∧ length tr = S i.
Proof.
  induction 1 as [kw|n kw r|n kw e0 tr res He Htr IH|n kw x0 Hx0];
    intros i kw_i x Hi Hx.
  - discriminate.
  - destruct i; simpl in Hi; [discriminate|]. destruct i; discriminate.
  - destruct i as [|i]; simpl in Hi.
    + injection Hi as -> <-. rewrite (Hx e0 eq_refl) in He. discriminate.
    + destruct (IH i kw_i x Hi Hx) as [-> Hlen]. simpl. auto.
  - destruct i; simpl in Hi.
    + injection Hi as -> ->. auto.
    + destruct i; discriminate.
Qed.

(** An accepted call is the last one, and its reply is what the loop
    returns. *)
Lemma retry_trace_accepted n kw tr res :
  retry_trace n kw tr res →
  ∀ (i : nat) kw_i r,
    tr !! i = Some (PutLogEvents kw_i, Returns r) →
    res = Return (Some r) ∧ length tr = S i.
Proof.
  induction 1 as [kw|n kw r0|n kw e0 tr res He Htr IH|n kw x0 Hx0];
    intros i kw_i r Hi.
  - discriminate.
  - destruct i; simpl in Hi; [injection Hi as -> ->; auto|].
    destruct i; discriminate.
  - destruct i as [|i]; simpl in Hi; [discriminate|].
    destruct (IH i kw_i r Hi) as [-> Hlen]. simpl. auto.
  - destruct i; simpl in Hi; [discriminate|]. destruct i; discriminate.
Qed.

(** The loop delivers the event list of its arguments when the submission
    goes on to return, and nothing otherwise. *)
Lemma retry_trace_delivered n kw tr res :
  retry_trace n kw tr res →
  delivered tr = match after_loop res with
                 | Return _ => [logEvents kw]
                 | Raise _ => []
                 end.
Proof.
  induction 1 as [kw|n kw r|n kw e tr res He Htr IH|n kw x Hx].
  - reflexivity.
  - cbn. destruct (rejectedLogEventsInfo r); reflexivity.
  - cbn [delivered omap]. exact IH.
  - reflexivity.
Qed.

Section Submitter.

Variable cwl_client : list (request * reply) → request → reply.

Lemma call_spec rq s :
  let rp := cwl_client (calls (outside s)) rq in
  call cwl_client rq s =
  (match rp with Returns r => Return r | Raises e => Raise e end,
   record_calls [(rq, rp)] s).
Proof.
  unfold call, record_calls. simpl.
  destruct (cwl_client (calls (outside s)) rq); reflexivity.
Qed.

Lemma put_with_retries_spec n kw s :
  ∃ tr, (put_with_retries cwl_client n kw s).2 = record_calls tr s
        ∧ retry_trace n kw tr (put_with_retries cwl_client n kw s).1.
Proof.
  revert kw s. induction n as [|n IH]; intros kw s.
  - exists []. simpl. rewrite record_calls_nil. split; [reflexivity|constructor].
  - cbn [put_with_retries]. unfold try_except, bind. rewrite call_spec.
    destruct (cwl_client (calls (outside s)) (PutLogEvents kw)) as [r|x] eqn:Hrp.
    + exists [(PutLogEvents kw, Returns r)]. split; [reflexivity|constructor].
    + destruct x as [e| | | |];
        try (eexists; split; [reflexivity|];
             apply retry_fatal; intros e' He'; discriminate He').
      destruct (stale_token e) eqn:Hs.
      * destruct (IH (with_sequenceToken (rsplit_last (Message e)) kw)
                     (record_calls [(PutLogEvents kw, Raises (ClientError e))] s))
          as (tr & Hst & Htr).
        exists ((PutLogEvents kw, Raises (ClientError e)) :: tr). split.
        -- rewrite Hst, record_calls_app. reflexivity.
        -- apply retry_stale; assumption.
      * eexists. split; [reflexivity|].
        apply retry_fatal. intros e' He'. injection He' as <-. exact Hs.
Qed.

Lemma submit_batch_spec batch stream n s token :
  batch ≠ [] →
  sequence_tokens (self s) !! stream = Some token →
  ∃ tr res,
    retry_trace (Z.to_nat n)
      (PutKwargs (log_group (self s)) stream (sorted batch) token) tr res
    ∧ _submit_batch cwl_client batch stream n s = (after_loop res, record_calls tr s).
Proof.
  intros Hne Htok. unfold _submit_batch.
  destruct batch as [|e batch]; [contradiction|].
  replace (len (e :: batch) <? 1) with false
    by (symmetry; apply Z.ltb_ge; unfold len; simpl; lia).
  unfold bind at 1. unfold get_self at 1. rewrite Htok.
  set (kw := PutKwargs (log_group (self s)) stream (sorted (e :: batch)) token).
  assert (Hkw : match token with
                | Some t => with_sequenceToken t
                    (PutKwargs (log_group (self s)) stream (sorted (e :: batch)) None)
                | None => PutKwargs (log_group (self s)) stream (sorted (e :: batch)) None
                end = kw) by (destruct token; reflexivity).
  rewrite Hkw. unfold bind.
  destruct (put_with_retries_spec (Z.to_nat n) kw s) as (tr & Hst & Htr).
  exists tr, (put_with_retries cwl_client (Z.to_nat n) kw s).1.
  split; [exact Htr|].
  destruct (put_with_retries cwl_client (Z.to_nat n) kw s) as [[[r|]|x] s'];
    simpl in Hst; subst s'; simpl; try reflexivity.
  destruct (rejectedLogEventsInfo r); reflexivity.
Qed.

(** Whatever happens, [_submit_batch] only adds calls to the history: the
    handler object, and with it every sequencing token, is left as it
    was. *)
Lemma submit_batch_frame batch stream n s :
  ∃ tr, (_submit_batch cwl_client batch stream n s).2 = record_calls tr s.
Proof.
  destruct batch as [|e batch].
  - exists []. rewrite record_calls_nil. reflexivity.
  - destruct (sequence_tokens (self s) !! stream) as [token|] eqn:Htok.
    + destruct (submit_batch_spec (e :: batch) stream n s token) as (tr & res & _ & ->);
        [discriminate|exact Htok|].
      exists tr. reflexivity.
    + exists []. rewrite record_calls_nil. unfold _submit_batch.
      replace (len (e :: batch) <? 1) with false
        by (symmetry; apply Z.ltb_ge; unfold len; simpl; lia).
      unfold bind, get_self. rewrite Htok. reflexivity.
Qed.

Lemma submit_batch_keeps_handler batch stream n s :
  self (_submit_batch cwl_client batch stream n s).2 = self s.
Proof.
  destruct (submit_batch_frame batch stream n s) as (tr & ->). reflexivity.
Qed.

Lemma stale_token_codes e :
  stale_token e = true ↔
  Code e = Some (str "DataAlreadyAcceptedException")
  ∨ Code e = Some (str "InvalidSequenceTokenException").
Proof.
  unfold stale_token. rewrite orb_true_iff, !bool_decide_eq_true. reflexivity.
Qed.

(** What a submission delivers: the batch, sorted, in one call if it
    returns and the batch is not empty; nothing if it raises, and then the
    batch was not empty. *)
Lemma submit_batch_delivers batch stream n s :
  ∃ tr,
    (_submit_batch cwl_client batch stream n s).2 = record_calls tr s
    ∧ match (_submit_batch cwl_client batch stream n s).1 with
      | Return _ => delivered tr = sent batch
      | Raise _ => delivered tr = [] ∧ batch ≠ []
      end.
Proof.
  destruct batch as [|e batch].
  - exists []. rewrite record_calls_nil. split; reflexivity.
  - destruct (sequence_tokens (self s) !! stream) as [token|] eqn:Htok.
    + destruct (submit_batch_spec (e :: batch) stream n s token)
        as (tr & res & Htr & ->); [discriminate|exact Htok|].
      exists tr. split; [reflexivity|]. cbn [fst].
      rewrite (retry_trace_delivered _ _ _ _ Htr). cbn [logEvents sent].
      destruct (after_loop res); [reflexivity|]. split; [reflexivity|discriminate].
    + exists []. rewrite record_calls_nil. unfold _submit_batch.
      replace (len (e :: batch) <? 1) with false
        by (symmetry; apply Z.ltb_ge; unfold len; simpl; lia).
      unfold bind, get_self. rewrite Htok. cbn.
      split; [reflexivity|]. split; [reflexivity|discriminate].
Qed.

(** C9.  [_submit_batch] on an empty batch returns at once: no call is made
    and the state (the handler with its sequencing tokens, the history of
    calls, the warnings) is the one it was called in. *)
Theorem submit_empty_batch_noop stream max_retries s :
  _submit_batch cwl_client [] stream max_retries s = (Return tt, s).
Proof. reflexivity. Qed.

(** C5.  The calls that [_submit_batch] makes for a non-empty batch all
    carry, as their event list, the batch sorted by [sorted]; when the stream
    is known and one attempt at least is allowed, a call is made.  The sorted
    list has non-decreasing timestamps, has the events of the batch, and
    keeps the events of equal timestamp in the order of the batch. *)
Theorem submitted_events_sorted batch stream max_retries s :
  batch ≠ [] →
  ∃ tr,
    (_submit_batch cwl_client batch stream max_retries s).2 = record_calls tr s
    ∧ Forall (fun c => ∃ token,
                c.1 = PutLogEvents (PutKwargs (log_group (self s)) stream
                                              (sorted batch) token)) tr
    ∧ (is_Some (sequence_tokens (self s) !! stream) → 0 < max_retries → tr ≠ [])
    ∧ StronglySorted by_timestamp (sorted batch)
    ∧ Permutation (sorted batch) batch
    ∧ ∀ t, with_timestamp t (sorted batch) = with_timestamp t batch.
Proof.
  intros Hne.
  destruct (sorted_spec batch) as (Hs & Hp & Hf).
  destruct (sequence_tokens (self s) !! stream) as [token|] eqn:Htok.
  - destruct (submit_batch_spec batch stream max_retries s token Hne Htok)
      as (tr & res & Htr & Heq).
    exists tr. rewrite Heq. split; [reflexivity|].
    split; [exact (retry_trace_requests _ _ _ _ Htr)|].
    split; [|auto].
    intros _ Hpos ->.
    destruct (Z.to_nat max_retries) as [|k] eqn:Hk; [lia|].
    destruct (retry_trace_first _ _ _ _ Htr) as (rp & tl & Habs). discriminate.
  - destruct (submit_batch_frame batch stream max_retries s) as (tr & Heq).
    exists []. split.
    + destruct batch as [|e batch]; [contradiction|].
      unfold _submit_batch.
      replace (len (e :: batch) <? 1) with false
        by (symmetry; apply Z.ltb_ge; unfold len; simpl; lia).
      unfold bind, get_self. rewrite Htok. simpl. rewrite record_calls_nil.
      reflexivity.
    + split; [constructor|]. split; [|auto].
      intros [x Hx]. discriminate.
Qed.

(** C6.  The calls of one [_submit_batch] are at most [max_retries]; a call
    rejected with [DataAlreadyAcceptedException] or
    [InvalidSequenceTokenException] is followed, when an attempt is left, by
    the same call with the token that ends the rejection's message, and
    nothing is recorded between the two; a call rejected with another code is
    the last one, and its error is what [_submit_batch] raises.  The callers
    of [_submit_batch] leave [max_retries] to its default, 5. *)
Theorem stale_token_retried_within_bound batch stream max_retries s :
  ∃ tr,
    (_submit_batch cwl_client batch stream max_retries s).2 = record_calls tr s
    ∧ (length tr ≤ Z.to_nat max_retries)%nat
    ∧ (∀ (i : nat) kw e,
         tr !! i = Some (PutLogEvents kw, Raises (ClientError e)) →
         Code e = Some (str "DataAlreadyAcceptedException")
         ∨ Code e = Some (str "InvalidSequenceTokenException") →
         (S i < Z.to_nat max_retries)%nat →
         ∃ rp, tr !! S i =
               Some (PutLogEvents
                       (PutKwargs (logGroupName kw) (logStreamName kw)
                                  (logEvents kw) (Some (rsplit_last (Message e)))),
                     rp))
    ∧ (∀ (i : nat) kw e,
         tr !! i = Some (PutLogEvents kw, Raises (ClientError e)) →
         Code e ≠ Some (str "DataAlreadyAcceptedException") →
         Code e ≠ Some (str "InvalidSequenceTokenException") →
         (_submit_batch cwl_client batch stream max_retries s).1
           = Raise (ClientError e)
         ∧ length tr = S i)
    ∧ Z.to_nat default_max_retries = 5%nat.
Proof.
  destruct batch as [|e0 batch].
  { exists []. rewrite record_calls_nil.
    repeat split; try reflexivity; try (simpl; lia); intros; discriminate. }
  destruct (sequence_tokens (self s) !! stream) as [token|] eqn:Htok.
  - destruct (submit_batch_spec (e0 :: batch) stream max_retries s token)
      as (tr & res & Htr & Heq); [discriminate|exact Htok|].
    exists tr. rewrite Heq. split; [reflexivity|].
    split; [exact (retry_trace_length _ _ _ _ Htr)|].
    split; [|split; [|reflexivity]].
    + intros i kw e Hi Hcode Hlt.
      apply (retry_trace_retry _ _ _ _ Htr i kw e Hi); [|exact Hlt].
      apply stale_token_codes, Hcode.
    + intros i kw e Hi Hc1 Hc2.
      destruct (retry_trace_fatal _ _ _ _ Htr i kw (ClientError e) Hi) as [-> Hlen].
      * intros e' He'. injection He' as <-.
        destruct (stale_token e) eqn:Hs; [|reflexivity].
        apply stale_token_codes in Hs. tauto.
      * split; [reflexivity|exact Hlen].
  - exists []. unfold _submit_batch.
    replace (len (e0 :: batch) <? 1) with false
      by (symmetry; apply Z.ltb_ge; unfold len; simpl; lia).
    unfold bind, get_self. rewrite Htok. simpl. rewrite record_calls_nil.
    repeat split; try reflexivity; try lia; intros; discriminate.
Qed.

End Submitter.

(** ** The worker *)

Section Worker.

Variable cwl_client : list (request * reply) → request → reply.
Variables (stream : pystr) (send_interval max_batch_size max_batch_count : Z).

Local Abbreviation loop :=
  (sender_loop cwl_client stream send_interval max_batch_size max_batch_count).
Local Abbreviation submit b :=
  (_submit_batch cwl_client b stream default_max_retries).

Lemma new_batch_consistent msg now :
  consistent max_batch_size max_batch_count (new_batch msg now send_interval).
Proof.
  unfold consistent, within_limits, new_batch. simpl.
  destruct msg; unfold len; simpl; repeat split; try reflexivity; left; lia.
Qed.

Lemma append_consistent st m now :
  consistent max_batch_size max_batch_count st →
  must_flush st (Some (Msg m)) now max_batch_size max_batch_count = false →
  consistent max_batch_size max_batch_count
    (SenderState (cur_batch st ++ [m]) (cur_batch_size st + size m)
                 (cur_batch_msg_count st + 1) (cur_batch_deadline st)).
Proof.
  intros (Hsize & Hcount & _) Hno. unfold must_flush in Hno.
  apply orb_false_iff in Hno as [Hno _].
  apply orb_false_iff in Hno as [Hs Hc].
  unfold consistent, within_limits. simpl.
  rewrite batch_size_app, len_app. simpl. unfold len at 2. simpl.
  repeat split; try lia. right.
  rewrite Z.gtb_ltb in Hs. apply Z.ltb_ge in Hs.
  rewrite Z.geb_leb in Hc. apply Z.leb_gt in Hc.
  unfold len in *. simpl. lia.
Qed.

Lemma sender_loop_limits my_queue :
  ∀ st s,
    consistent max_batch_size max_batch_count st →
    Forall (within_limits max_batch_size max_batch_count)
           (handed (loop st my_queue s).1).
Proof.
  induction my_queue as [|p rest IH]; intros st s Hst; cbn [sender_loop].
  - constructor.
  - destruct (must_flush st (got p) (clock_at_test p) max_batch_size
                         max_batch_count) eqn:Hflush.
    + assert (Hb : within_limits max_batch_size max_batch_count (cur_batch st))
        by apply Hst.
      destruct (submit (cur_batch st) s) as [[[]|x] s1].
      * destruct (got p) as [[m|]|].
        -- pose proof (IH (new_batch (Some m) (clock_at_restart p) send_interval)
                          s1 (new_batch_consistent _ _)) as H.
           destruct (loop _ rest s1) as [r s2]. simpl in *.
           constructor; assumption.
        -- simpl. constructor; [assumption|constructor].
        -- pose proof (IH (new_batch None (clock_at_restart p) send_interval)
                          s1 (new_batch_consistent _ _)) as H.
           destruct (loop _ rest s1) as [r s2]. simpl in *.
           constructor; assumption.
      * simpl. constructor; [assumption|constructor].
    + destruct (got p) as [[m|]|]; try discriminate Hflush.
      pose proof (IH _ s (append_consistent st m _ Hst Hflush)) as H.
      destruct (loop _ rest s) as [r s2]. simpl in *. exact H.
Qed.

(** C2, as amended.  Every batch that the worker passes to the submitter
    either is a single event (or is empty, and then not sent), or holds at
    most [max_batch_count] events of total accounted size at most
    [max_batch_size], the size of an event being the one the worker
    accounts, [size]. *)
Theorem batches_within_limits_or_single my_queue start s :
  Forall (fun b => len b <= 1
                   ∨ (len b <= max_batch_count ∧ batch_size b <= max_batch_size))
         (handed (batch_sender cwl_client my_queue start stream send_interval
                               max_batch_size max_batch_count s).1).
Proof.
  unfold batch_sender.
  apply (sender_loop_limits my_queue), new_batch_consistent.
Qed.

Lemma received_cons p rest :
  received (p :: rest) =
  match got p with Some x => x :: received rest | None => received rest end.
Proof. unfold received. simpl. destruct (got p); reflexivity. Qed.

(** All that a worker does with a queue that holds the events [evs] and
    then the sentinel, whatever the timeouts, the clock and the service.
    Either it reaches the sentinel: it has passed on its pending batch and
    then every event, in order, each non-empty batch was delivered by one
    call, and every item was marked done.  Or a submission raised, after
    the calls [before]: the batches before the failed one were delivered, the
    failed batch and what was still to come were not, and the items marked
    done are fewer than the items of the queue. *)
Lemma sender_loop_outcomes my_queue :
  ∀ evs st s,
    received my_queue = map Msg evs ++ [END] →
    ∃ tr,
      (loop st my_queue s).2
      = State (self s)
              (World (calls (outside s) ++ tr) (warnings (outside s))
                     (crash_file (outside s)
                      ++ crash_entries (ending (loop st my_queue s).1)))
      ∧ match ending (loop st my_queue s).1 with
        | Finished =>
            concat (handed (loop st my_queue s).1) = cur_batch st ++ evs
            ∧ delivered tr = flat_map sent (handed (loop st my_queue s).1)
            ∧ tasks_done (loop st my_queue s).1 = S (length evs)
        | Crashed x =>
            ∃ done failed lost before,
              handed (loop st my_queue s).1 = done ++ [failed]
              ∧ failed ≠ []
              ∧ concat done ++ failed ++ lost = cur_batch st ++ evs
              ∧ submit failed (record_calls before s)
                = (Raise x, record_calls tr s)
              ∧ delivered tr = flat_map sent done
              ∧ (tasks_done (loop st my_queue s).1 ≤ length evs)%nat
        | Waiting _ => False
        end.
Proof.
  induction my_queue as [|p rest IH]; intros evs st s Hrec.
  { destruct evs; discriminate. }
  cbn [sender_loop].
  destruct (submit_batch_delivers cwl_client (cur_batch st) stream
              default_max_retries s) as (tr1 & Hs1 & Hd1).
  (* the batch is flushed, the submission returns and the loop goes on *)
  assert (Hflush : ∀ (msg : option event) (done : nat) evs',
    received rest = map Msg evs' ++ [END] →
    delivered tr1 = sent (cur_batch st) →
    evs = match msg with Some m => m :: evs' | None => evs' end →
    done = match msg with Some _ => 1%nat | None => 0%nat end →
    let out := (let (r, s2) :=
                  loop (new_batch msg (clock_at_restart p) send_interval)
                       rest (record_calls tr1 s) in
                (after_flush (cur_batch st) done r, s2)) in
    ∃ tr,
      out.2 = State (self s)
                (World (calls (outside s) ++ tr) (warnings (outside s))
                   (crash_file (outside s) ++ crash_entries (ending out.1)))
      ∧ match ending out.1 with
        | Finished =>
            concat (handed out.1) = cur_batch st ++ evs
            ∧ delivered tr = flat_map sent (handed out.1)
            ∧ tasks_done out.1 = S (length evs)
        | Crashed x =>
            ∃ done failed lost before,
              handed out.1 = done ++ [failed]
              ∧ failed ≠ []
              ∧ concat done ++ failed ++ lost = cur_batch st ++ evs
              ∧ submit failed (record_calls before s)
                = (Raise x, record_calls tr s)
              ∧ delivered tr = flat_map sent done
              ∧ (tasks_done out.1 ≤ length evs)%nat
        | Waiting _ => False
        end).
  { intros msg done evs' Hrest Hsent Hevs Hdone.
    destruct (IH evs' (new_batch msg (clock_at_restart p) send_interval)
                 (record_calls tr1 s) Hrest) as (tr2 & Hs2 & Hout).
    destruct (loop _ rest (record_calls tr1 s)) as [r s2].
    cbn [fst snd self outside record_calls calls warnings crash_file
         after_flush handed ending tasks_done] in *.
    exists (tr1 ++ tr2). rewrite Hs2, app_assoc. split; [reflexivity|].
    assert (Hcur : cur_batch (new_batch msg (clock_at_restart p) send_interval)
                   ++ evs' = evs)
      by (subst evs; destruct msg; reflexivity).
    destruct (ending r) as [|st'|x]; [|exact Hout|].
    - destruct Hout as (Hcat & Hdel & Htasks).
      cbn [concat flat_map]. rewrite Hcat, Hcur, delivered_app, Hsent, Hdel.
      repeat split. subst evs done. destruct msg; cbn [length]; lia.
    - destruct Hout
        as (done' & failed & lost & before & Hh & Hne & Hcat & Hsub & Hdel & Htasks).
      exists (cur_batch st :: done'), failed, lost, (tr1 ++ before).
      rewrite Hh. split; [reflexivity|]. split; [exact Hne|].
      cbn [concat flat_map]. rewrite <- app_assoc, Hcat, Hcur.
      split; [reflexivity|].
      rewrite <- !record_calls_app. split; [exact Hsub|].
      rewrite delivered_app, Hsent, Hdel. split; [reflexivity|].
      subst evs done. destruct msg; cbn [length]; lia. }
  (* the submission raises *)
  assert (Hcrash : ∀ x lost,
    submit (cur_batch st) s = (Raise x, record_calls tr1 s) →
    delivered tr1 = [] → cur_batch st ≠ [] →
    cur_batch st ++ lost = cur_batch st ++ evs →
    let out := (Run [cur_batch st] 0 (Crashed x),
                (write_crash_file x (record_calls tr1 s)).2) in
    ∃ tr,
      out.2 = State (self s)
                (World (calls (outside s) ++ tr) (warnings (outside s))
                   (crash_file (outside s) ++ crash_entries (ending out.1)))
      ∧ ∃ done failed lost before,
          handed out.1 = done ++ [failed]
          ∧ failed ≠ []
          ∧ concat done ++ failed ++ lost = cur_batch st ++ evs
          ∧ submit failed (record_calls before s) = (Raise x, record_calls tr s)
          ∧ delivered tr = flat_map sent done
          ∧ (tasks_done out.1 ≤ length evs)%nat).
  { intros x lost Hsub Hnone Hne Hlost. exists tr1. split; [reflexivity|].
    exists [], (cur_batch st), lost, [].
    cbn [fst handed tasks_done concat flat_map app]. rewrite record_calls_nil.
    repeat split; auto. lia. }
  rewrite received_cons in Hrec.
  destruct (got p) as [[m|]|] eqn:Hgot.
  - (* an event *)
    destruct evs as [|m' evs]; simpl in Hrec;
      [destruct (received rest); discriminate|].
    injection Hrec as <- Hrec.
    destruct (must_flush st (Some (Msg m)) (clock_at_test p) max_batch_size
                         max_batch_count).
    + destruct (submit (cur_batch st) s) as [[[]|x] s1]; cbn [fst snd] in Hs1, Hd1;
        subst s1.
      * exact (Hflush (Some m) 1%nat evs Hrec Hd1 eq_refl eq_refl).
      * destruct Hd1 as [Hnone Hne].
        exact (Hcrash x (m :: evs) eq_refl Hnone Hne eq_refl).
    + destruct (IH evs (SenderState (cur_batch st ++ [m])
                                    (cur_batch_size st + size m)
                                    (cur_batch_msg_count st + 1)
                                    (cur_batch_deadline st)) s Hrec)
        as (tr2 & Hs2 & Hout).
      destruct (loop _ rest s) as [r s2].
      cbn [fst snd after_append handed ending tasks_done cur_batch] in *.
      exists tr2. split; [exact Hs2|].
      destruct (ending r) as [|st'|x]; [|exact Hout|].
      * destruct Hout as (Hcat & Hdel & Htasks).
        rewrite Hcat, <- app_assoc, Hdel, Htasks. repeat split.
      * destruct Hout
          as (done' & failed & lost & before & Hh & Hne & Hcat & Hsub & Hdel & Htasks).
        exists done', failed, lost, before. rewrite Hcat, <- app_assoc.
        repeat split; auto. cbn [length]. lia.
  - (* the sentinel *)
    destruct evs as [|m' evs]; simpl in Hrec; [|discriminate].
    cbn [must_flush].
    destruct (submit (cur_batch st) s) as [[[]|x] s1]; cbn [fst snd] in Hs1, Hd1;
      subst s1.
    + exists tr1. cbn [fst snd ending handed tasks_done crash_entries concat
                       flat_map length].
      rewrite !app_nil_r, Hd1. repeat split.
    + destruct Hd1 as [Hnone Hne].
      exact (Hcrash x [] eq_refl Hnone Hne eq_refl).
  - (* a timeout *)
    cbn [must_flush].
    destruct (submit (cur_batch st) s) as [[[]|x] s1]; cbn [fst snd] in Hs1, Hd1;
      subst s1.
    + exact (Hflush None 0%nat evs Hrec Hd1 eq_refl eq_refl).
    + destruct Hd1 as [Hnone Hne].
      exact (Hcrash x evs eq_refl Hnone Hne eq_refl).
Qed.


End Worker.

(** ** The handler *)

Section Emit.

Variable cwl_client : list (request * reply) → request → reply.
Variable format : LogRecord → result rendered.
Variable json_dumps : list (pystr * pystr) → result pystr.

Lemma idempotent_create_swallows {A} (c : M A) s e s1 :
  c s = (Raise (ClientError e), s1) →
  Code e = Some (str "ResourceAlreadyExistsException") →
  _idempotent_create c s = (Return tt, s1).
Proof.
  intros Hc He. unfold _idempotent_create, try_except, bind. rewrite Hc.
  rewrite bool_decide_eq_false_2; [reflexivity|]. intros Hne. apply Hne, He.
Qed.

Lemma idempotent_create_reraises {A} (c : M A) s x s1 :
  c s = (Raise x, s1) →
  (∀ e, x = ClientError e → Code e ≠ Some (str "ResourceAlreadyExistsException")) →
  _idempotent_create c s = (Raise x, s1).
Proof.
  intros Hc Hx. unfold _idempotent_create, try_except, bind. rewrite Hc.
  destruct x as [e| | | |]; try reflexivity.
  rewrite bool_decide_eq_true_2; [reflexivity|]. apply (Hx e eq_refl).
Qed.

Lemma idempotent_create_returns {A} (c : M A) s a s1 :
  c s = (Return a, s1) → _idempotent_create c s = (Return tt, s1).
Proof.
  intros Hc. unfold _idempotent_create, try_except, bind. rewrite Hc.
  reflexivity.
Qed.

Lemma idempotent_create_call rq s :
  let rp := cwl_client (calls (outside s)) rq in
  (created_or_exists rp →
   _idempotent_create (call cwl_client rq) s = (Return tt, record_calls [(rq, rp)] s))
  ∧ (¬ created_or_exists rp →
     ∃ x, rp = Raises x
          ∧ _idempotent_create (call cwl_client rq) s
            = (Raise x, record_calls [(rq, rp)] s)).
Proof.
  intros rp. pose proof (call_spec cwl_client rq s) as Hcall.
  fold rp in Hcall. simpl in Hcall.
  destruct rp as [r|x] eqn:Hrp; simpl; split.
  - intros _. eapply idempotent_create_returns, Hcall.
  - tauto.
  - destruct x as [e| | | |]; try tauto.
    intros He. eapply idempotent_create_swallows; [exact Hcall|exact He].
  - intros Hno. exists x. split; [reflexivity|].
    eapply idempotent_create_reraises; [exact Hcall|].
    intros e -> He. apply Hno. exact He.
Qed.

Lemma idempotent_create_call_frame rq s :
  ∃ r, _idempotent_create (call cwl_client rq) s
       = (r, record_calls [(rq, cwl_client (calls (outside s)) rq)] s).
Proof.
  unfold _idempotent_create, try_except, bind. rewrite call_spec.
  destruct (cwl_client (calls (outside s)) rq) as [r|x]; [eexists; reflexivity|].
  destruct x as [e| | | |]; try (eexists; reflexivity).
  destruct (bool_decide _); eexists; reflexivity.
Qed.

Lemma flush_joined_spec h :
  flush_joined h = true ↔
  ∀ k q, queues h !! k = Some q → unfinished_tasks q = 0%nat.
Proof.
  unfold flush_joined. rewrite bool_decide_eq_true. unfold map_Forall.
  split; intros H k q Hk; specialize (H k q Hk); unfold join in *.
  - destruct (Nat.eqb (unfinished_tasks q) 0) eqn:E; [|discriminate].
    apply Nat.eqb_eq, E.
  - rewrite H. reflexivity.
Qed.

Lemma flush_signal_spec s :
  flush_signal s =
  (Return tt,
   State (set_queues (fmap (put END)) (set_shutting_down true (self s)))
         (outside s)).
Proof. reflexivity. Qed.

(** Lines 114-116 of [emit] build the event of the record, or raise what
    building it raises, and leave the state as it is. *)
Lemma build_event_spec {B} record (k : Z → pystr → M B) s :
  (timestamp <- lift (int (created record * 1000)) ;;
   formatted <- lift (format record) ;;
   text <- lift (match formatted with
                 | Text s => Return s
                 | Mapping m => json_dumps m
                 end) ;;
   k timestamp text) s
  = match event_of format json_dumps record with
    | Return msg => k (timestamp msg) (message msg) s
    | Raise x => (Raise x, s)
    end.
Proof.
  unfold bind, lift, event_of.
  destruct (int (created record * 1000)) as [t|x]; [|reflexivity].
  destruct (format record) as [[txt|m]|x]; [reflexivity| |reflexivity].
  destruct (json_dumps m) as [txt|x]; reflexivity.
Qed.

(** All of [emit], when the stream is known or its creation does not raise:
    [s1] is the state after lines 106-112. *)
Lemma emit_spec record s :
  let h := self s in
  let stream := target_stream h record in
  let rq := CreateLogStream (log_group h) stream in
  let rp := cwl_client (calls (outside s)) rq in
  (sequence_tokens h !! stream = None → created_or_exists rp) →
  let s1 :=
    match sequence_tokens h !! stream with
    | Some _ => s
    | None =>
        State (set_sequence_tokens (insert stream None) h)
              (World (calls (outside s) ++ [(rq, rp)]) (warnings (outside s))
                     (crash_file (outside s)))
    end in
  emit cwl_client format json_dumps record s =
  match event_of format json_dumps record with
  | Raise x => (Raise x, s1)
  | Return msg =>
      if use_queues h then
        (Return tt,
         State
           (Handler (log_group h) (stream_name h) true (send_interval h)
              (max_batch_size h) (max_batch_count h)
              (let queues' :=
                 match queues h !! stream with
                 | None => <[stream := empty_queue]> (queues h)
                 | Some _ => queues h
                 end in
               if shutting_down h then queues'
               else alter (put (Msg msg)) stream queues')
              (sequence_tokens (self s1))
              (match queues h !! stream with
               | None => threads h ++ [Thread stream (send_interval h)
                                              (max_batch_size h)
                                              (max_batch_count h) true true]
               | Some _ => threads h
               end)
              (shutting_down h))
           (World (calls (outside s1))
                  (warnings (outside s)
                   ++ (if shutting_down h then [late_warning] else []))
                  (crash_file (outside s))))
      else _submit_batch cwl_client [msg] stream default_max_retries s1
  end.
Proof.
  destruct s as [[g sn uq si ms mc qs toks ths sd] [cs ws cf]].
  intros h stream rq rp Hcreate s1. subst h stream rq rp s1.
  unfold target_stream in *.
  cbn [self outside use_queues shutting_down sequence_tokens queues log_group
       calls warnings crash_file send_interval max_batch_size max_batch_count
       threads stream_name] in *.
  set (stream := match sn with None => name record | Some s => s end) in *.
  unfold emit. unfold bind at 1. unfold get_self at 1.
  cbn [self outside use_queues shutting_down sequence_tokens queues log_group
       calls warnings crash_file send_interval max_batch_size max_batch_count
       threads stream_name].
  fold stream.
  destruct (toks !! stream) as [tok|] eqn:Htok.
  - unfold bind at 1. unfold ret at 1.
    rewrite build_event_spec. cbn beta.
    destruct (event_of format json_dumps record) as [[t txt]|x]; [|reflexivity].
    cbn [timestamp message]. run_method.
    destruct uq; [|reflexivity].
    destruct (qs !! stream) as [q0|] eqn:Hq; run_method;
      destruct sd; run_method; rewrite ?app_nil_r; reflexivity.
  - unfold bind at 1. unfold bind at 1.
    match goal with
    | |- context [_idempotent_create _ ?s0] =>
        destruct (idempotent_create_call (CreateLogStream g stream) s0)
          as [Hc _];
        rewrite (Hc (Hcreate eq_refl)); clear Hc
    end.
    unfold modify_self at 1.
    cbn [self outside record_calls calls warnings crash_file].
    rewrite build_event_spec. cbn beta.
    destruct (event_of format json_dumps record) as [[t txt]|x]; [|reflexivity].
    cbn [timestamp message]. run_method.
    destruct uq; [|reflexivity].
    destruct (qs !! stream) as [q0|] eqn:Hq; run_method;
      destruct sd; run_method; rewrite ?app_nil_r; reflexivity.
Qed.

Lemma created_or_exists_dec rp : created_or_exists rp ∨ ¬ created_or_exists rp.
Proof.
  destruct rp as [r|[e| | | |]]; simpl; auto.
  destruct (decide (Code e = Some (str "ResourceAlreadyExistsException"))); auto.
Qed.

(** [emit] for a stream whose creation raises: the error goes to the
    caller, and only the create call was made. *)
Lemma emit_create_fails message s :
  let stream := target_stream (self s) message in
  let rq := CreateLogStream (log_group (self s)) stream in
  let rp := cwl_client (calls (outside s)) rq in
  sequence_tokens (self s) !! stream = None →
  ¬ created_or_exists rp →
  ∃ x, rp = Raises x
       ∧ emit cwl_client format json_dumps message s
         = (Raise x, record_calls [(rq, rp)] s).
Proof.
  destruct s as [[g sn uq si ms mc qs toks ths sd] [cs ws cf]].
  intros stream rq rp Htok Hc. unfold target_stream in *.
  cbn [self outside sequence_tokens stream_name log_group calls] in *.
  unfold emit. unfold bind at 1. unfold get_self at 1.
  cbn [self outside use_queues shutting_down sequence_tokens queues log_group
       calls warnings crash_file send_interval max_batch_size max_batch_count
       threads stream_name].
  fold stream. rewrite Htok. fold rq.
  unfold bind at 1. unfold bind at 1.
  match goal with
  | |- context [_idempotent_create _ ?s0] =>
      destruct (idempotent_create_call rq s0) as [_ Hno]
  end.
  cbn [outside calls] in Hno. fold rp in Hno.
  destruct (Hno Hc) as (x & Hx & Heq). exists x.
  split; [exact Hx|]. rewrite Heq. reflexivity.
Qed.

Lemma emit_unknown_stream message s :
  sequence_tokens (self s) !! target_stream (self s) message = None →
  let stream := target_stream (self s) message in
  let rq := CreateLogStream (log_group (self s)) stream in
  let rp := cwl_client (calls (outside s)) rq in
  let out := emit cwl_client format json_dumps message s in
  (created_or_exists rp →
   sequence_tokens (self out.2) !! stream = Some None
   ∧ ∃ tl, calls (outside out.2) = calls (outside s) ++ (rq, rp) :: tl)
  ∧ (¬ created_or_exists rp →
     ∃ x, rp = Raises x ∧ out = (Raise x, record_calls [(rq, rp)] s)).
Proof.
  intros Htok stream rq rp out. subst out. split.
  - intros Hc. rewrite (emit_spec message s (fun _ => Hc)).
    rewrite Htok. fold stream rq rp.
    destruct (event_of format json_dumps message) as [msg|x].
    + destruct (use_queues (self s)).
      * cbn [snd self outside sequence_tokens set_sequence_tokens calls].
        split; [apply lookup_insert_eq|exists []; reflexivity].
      * match goal with
        | |- context [_submit_batch cwl_client ?b ?n ?r ?s0] =>
            destruct (submit_batch_frame cwl_client b n r s0) as [tr ->]
        end.
        cbn [record_calls self outside sequence_tokens set_sequence_tokens calls].
        split; [apply lookup_insert_eq|].
        exists tr. rewrite <- app_assoc. reflexivity.
    + cbn [snd self outside sequence_tokens set_sequence_tokens calls].
      split; [apply lookup_insert_eq|exists []; reflexivity].
  - intros Hc. exact (emit_create_fails message s Htok Hc).
Qed.

(** C10, as amended.  The handler uses queues and is shutting down; the
    record goes to a stream that has neither a sequencing token nor a queue,
    and the create call returns or fails with
    [ResourceAlreadyExistsException].  If the event of the record can be
    built, [emit] returns, and what it did is exactly this: the create call
    was made, the token of the stream is [None], the stream has a queue,
    which is empty, a daemon worker thread for it was started, and the
    warning was issued; the record is in no queue.  If building the event
    raises, [emit] raises the same, and what it did is the create call and
    the token: there is no queue, no thread and no warning. *)
Theorem unseen_stream_provisioned_after_shutdown message s :
  use_queues (self s) = true →
  shutting_down (self s) = true →
  sequence_tokens (self s) !! target_stream (self s) message = None →
  queues (self s) !! target_stream (self s) message = None →
  created_or_exists
    (cwl_client (calls (outside s))
       (CreateLogStream (log_group (self s)) (target_stream (self s) message))) →
  let h := self s in
  let stream := target_stream h message in
  let create :=
    (CreateLogStream (log_group h) stream,
     cwl_client (calls (outside s)) (CreateLogStream (log_group h) stream)) in
  emit cwl_client format json_dumps message s =
  match event_of format json_dumps message with
  | Return _ =>
      (Return tt,
       State
         (Handler (log_group h) (stream_name h) (use_queues h) (send_interval h)
            (max_batch_size h) (max_batch_count h)
            (<[stream := empty_queue]> (queues h))
            (<[stream := None]> (sequence_tokens h))
            (threads h ++ [Thread stream (send_interval h) (max_batch_size h)
                                  (max_batch_count h) true true])
            (shutting_down h))
         (World (calls (outside s) ++ [create])
                (warnings (outside s) ++ [late_warning])
                (crash_file (outside s))))
  | Raise x =>
      (Raise x,
       State
         (Handler (log_group h) (stream_name h) (use_queues h) (send_interval h)
            (max_batch_size h) (max_batch_count h)
            (queues h)
            (<[stream := None]> (sequence_tokens h))
            (threads h)
            (shutting_down h))
         (World (calls (outside s) ++ [create])
                (warnings (outside s))
                (crash_file (outside s))))
  end.
Proof.
  intros Huse Hdown Htok Hq Hcreate h stream create. subst h stream create.
  rewrite (emit_spec message s (fun _ => Hcreate)).
  unfold set_sequence_tokens. rewrite Htok, Hq, Huse, Hdown.
  destruct (event_of format json_dumps message) as [msg|x]; reflexivity.
Qed.

(** C7.  [_idempotent_create] swallows a [ClientError] whose code is
    [ResourceAlreadyExistsException] and returns; it raises again a
    [ClientError] with another code.  When [emit] meets a stream that has no
    sequencing token, it creates the stream through [_idempotent_create]
    and, unless that raised, the stream's token is [None] afterwards; if it
    raised, [emit] raises the same error.  While the token of a stream is
    [None], the first call of a submission has no [sequenceToken].  The group
    is created through [_idempotent_create] as well. *)
Theorem idempotent_create_and_initial_token :
  (∀ A (c : M A) s e s1,
     c s = (Raise (ClientError e), s1) →
     Code e = Some (str "ResourceAlreadyExistsException") →
     _idempotent_create c s = (Return tt, s1))
  ∧ (∀ A (c : M A) s e s1,
       c s = (Raise (ClientError e), s1) →
       Code e ≠ Some (str "ResourceAlreadyExistsException") →
       _idempotent_create c s = (Raise (ClientError e), s1))
  ∧ (∀ message s,
       sequence_tokens (self s) !! target_stream (self s) message = None →
       let stream := target_stream (self s) message in
       let rq := CreateLogStream (log_group (self s)) stream in
       let rp := cwl_client (calls (outside s)) rq in
       let out := emit cwl_client format json_dumps message s in
       (created_or_exists rp →
        sequence_tokens (self out.2) !! stream = Some None
        ∧ ∃ tl, calls (outside out.2) = calls (outside s) ++ (rq, rp) :: tl)
       ∧ (¬ created_or_exists rp →
          ∃ x, rp = Raises x ∧ out = (Raise x, record_calls [(rq, rp)] s)))
  ∧ (∀ batch stream max_retries s,
       batch ≠ [] → 0 < max_retries →
       sequence_tokens (self s) !! stream = Some None →
       ∃ rp tl,
         (_submit_batch cwl_client batch stream max_retries s).2
         = record_calls
             ((PutLogEvents (PutKwargs (log_group (self s)) stream
                                       (sorted batch) None), rp) :: tl) s)
  ∧ (∀ group stream use_queues send_interval max_batch_size max_batch_count s,
       created_or_exists (cwl_client (calls (outside s)) (CreateLogGroup group)) →
       __init__ cwl_client group stream use_queues send_interval max_batch_size
                max_batch_count true s
       = (Return tt,
          record_calls
            [(CreateLogGroup group,
              cwl_client (calls (outside s)) (CreateLogGroup group))]
            (State (Handler group stream use_queues send_interval
                            max_batch_size max_batch_count ∅ ∅ [] false)
                   (outside s)))).
Proof.
  split; [|split; [|split; [|split]]].
  - intros A c s e s1. apply idempotent_create_swallows.
  - intros A c s e s1 Hc He. apply idempotent_create_reraises; [exact Hc|].
    intros e' He'. injection He' as <-. exact He.
  - apply emit_unknown_stream.
  - intros batch stream n s Hne Hpos Htok.
    destruct (submit_batch_spec cwl_client batch stream n s None Hne Htok)
      as (tr & res & Htr & ->).
    destruct (Z.to_nat n) as [|k] eqn:Hk; [lia|].
    destruct (retry_trace_first _ _ _ _ Htr) as (rp & tl & ->).
    exists rp, tl. reflexivity.
  - intros group stream uq si ms mc s Hc.
    unfold __init__. unfold bind, modify_self.
    match goal with
    | |- context [_idempotent_create _ ?s0] =>
        destruct (idempotent_create_call (CreateLogGroup group) s0) as [Hyes _]
    end.
    rewrite (Hyes Hc). reflexivity.
Qed.

Lemma emit_known_or_created message s :
  let stream := target_stream (self s) message in
  let rp := cwl_client (calls (outside s))
              (CreateLogStream (log_group (self s)) stream) in
  (sequence_tokens (self s) !! stream = None → created_or_exists rp)
  ∨ (sequence_tokens (self s) !! stream = None ∧ ¬ created_or_exists rp).
Proof.
  intros stream rp.
  destruct (sequence_tokens (self s) !! stream); [left; discriminate|].
  destruct (created_or_exists_dec rp); [left|right]; auto.
Qed.

(** A record that arrives after the shutdown began. *)
Lemma emit_after_shutdown message s :
  shutting_down (self s) = true →
  let out := emit cwl_client format json_dumps message s in
  (∀ k q, queues (self s) !! k = Some q → queues (self out.2) !! k = Some q)
  ∧ (∀ k q, queues (self out.2) !! k = Some q →
            queues (self s) !! k = Some q ∨ q = empty_queue)
  ∧ shutting_down (self out.2) = true
  ∧ (use_queues (self s) = true →
     (∃ tl, calls (outside out.2) = calls (outside s) ++ tl
            ∧ Forall (fun c => c.1 = CreateLogStream (log_group (self s))
                                       (target_stream (self s) message)) tl)
     ∧ (out.1 = Return tt →
        warnings (outside out.2) = warnings (outside s) ++ [late_warning])
     ∧ (∀ x, out.1 = Raise x →
             warnings (outside out.2) = warnings (outside s))
     ∧ ((sequence_tokens (self s) !! target_stream (self s) message = None →
         created_or_exists
           (cwl_client (calls (outside s))
              (CreateLogStream (log_group (self s))
                               (target_stream (self s) message)))) →
        out.1 = match event_of format json_dumps message with
                | Return _ => Return tt
                | Raise x => Raise x
                end)).
Proof.
  intros Hdown out. subst out.
  destruct (emit_known_or_created message s) as [Hc|[Htok Hc]].
  - rewrite (emit_spec message s Hc). rewrite Hdown.
    set (stream := target_stream (self s) message).
    set (rq := CreateLogStream (log_group (self s)) stream).
    set (s1 := match sequence_tokens (self s) !! stream with
               | Some _ => s
               | None => _
               end).
    assert (Hs1 : queues (self s1) = queues (self s)
                  ∧ shutting_down (self s1) = true
                  ∧ warnings (outside s1) = warnings (outside s)
                  ∧ ∃ tl, calls (outside s1) = calls (outside s) ++ tl
                          ∧ Forall (fun c => c.1 = rq) tl).
    { subst s1. destruct (sequence_tokens (self s) !! stream).
      - repeat split; auto. exists []. rewrite app_nil_r. auto.
      - repeat split; auto. eexists. split; [reflexivity|].
        repeat constructor. }
    destruct Hs1 as (Hq1 & Hd1 & Hw1 & tl & Hcalls & Htl).
    destruct (event_of format json_dumps message) as [msg|x].
    + destruct (use_queues (self s)) eqn:Huse.
      * cbn [fst snd self outside queues shutting_down calls warnings].
        split; [|split; [|split; [reflexivity|]]].
        -- intros k q Hk. destruct (queues (self s) !! stream) eqn:Hq; [exact Hk|].
           rewrite lookup_insert_ne; [exact Hk|]. congruence.
        -- intros k q Hk. destruct (queues (self s) !! stream) eqn:Hq; [auto|].
           apply lookup_insert_Some in Hk as [[_ <-]|[_ Hk]]; auto.
        -- intros _. split; [exists tl; auto|].
           split; [reflexivity|]. split; [discriminate|reflexivity].
      * match goal with
        | |- context [_submit_batch cwl_client ?b ?n ?r ?s0] =>
            destruct (submit_batch_frame cwl_client b n r s0) as [tr ->]
        end.
        cbn [record_calls self]. rewrite Hq1, Hd1.
        repeat split; auto; discriminate.
    + cbn [fst snd]. rewrite Hq1, Hd1, Hw1.
      split; [auto|]. split; [auto|]. split; [reflexivity|].
      intros _. split; [exists tl; auto|]. split; [discriminate|].
      split; reflexivity.
  - destruct (emit_create_fails message s Htok Hc) as (x & _ & ->).
    cbn [fst snd record_calls self outside calls warnings].
    split; [auto|]. split; [auto|]. split; [exact Hdown|].
    intros _. split.
    + eexists. split; [reflexivity|]. repeat constructor.
    + split; [discriminate|]. split; [reflexivity|].
      intros Hyes. exfalso. apply Hc, Hyes, Htok.
Qed.

(** After the first phase of [flush], the join of a queue whose worker
    reaches the sentinel returns, and the join of a queue whose worker was
    ended by an exception does not: the handler has the one queue of [k], in
    which the events [evs] wait, none of them marked done, and the worker
    takes its items while [flush] waits. *)
Lemma flush_joins_worker k q evs my_queue start s0 :
  queues (self s0) = {[k := q]} →
  queue_items q = map Msg evs →
  unfinished_tasks q = length evs →
  received my_queue = map Msg evs ++ [END] →
  let h := self s0 in
  let s1 := (flush_signal s0).2 in
  let out := batch_sender cwl_client my_queue start k (send_interval h)
               (max_batch_size h) (max_batch_count h) s1 in
  match ending out.1 with
  | Finished =>
      flush (run_worker cwl_client my_queue start k) s0
      = Some (Return tt,
              State (set_queues (insert k empty_queue) (self s1)) (outside out.2))
  | Crashed _ => flush (run_worker cwl_client my_queue start k) s0 = None
  | Waiting _ => False
  end.
Proof.
  intros Hqs Hitems Hcount Hrec h s1 out. subst h s1 out.
  unfold flush. rewrite flush_signal_spec. cbn [snd].
  set (s1 := State (set_queues (fmap (put END)) (set_shutting_down true (self s0)))
                   (outside s0)).
  assert (Hk : queues (self s1) !! k = Some (put END q)).
  { cbn [s1 self queues set_queues set_shutting_down].
    rewrite lookup_fmap, Hqs, lookup_singleton_eq. reflexivity. }
  unfold run_worker. rewrite Hk.
  change (send_interval (self s1)) with (send_interval (self s0)).
  change (max_batch_size (self s1)) with (max_batch_size (self s0)).
  change (max_batch_count (self s1)) with (max_batch_count (self s0)).
  unfold batch_sender.
  destruct (sender_loop_outcomes cwl_client k (send_interval (self s0))
              (max_batch_size (self s0)) (max_batch_count (self s0))
              my_queue evs
              (new_batch None start (send_interval (self s0))) s1 Hrec)
    as (tr & Hs & Hout).
  destruct (sender_loop cwl_client k (send_interval (self s0))
              (max_batch_size (self s0)) (max_batch_count (self s0))
              (new_batch None start (send_interval (self s0))) my_queue s1)
    as [r s2].
  cbn [fst snd] in *. subst s2. cbn [self outside].
  assert (Hserved : served my_queue r (put END q)
                    = Queue [] (S (length evs) - tasks_done r)).
  { unfold served, put. cbn [queue_items unfinished_tasks].
    rewrite Hrec, Hitems, Hcount. f_equal. apply drop_all. }
  rewrite Hserved.
  destruct (ending r) as [|st|x]; [|exact Hout|].
  - destruct Hout as (_ & _ & ->). rewrite Nat.sub_diag.
    assert (Hj : flush_joined
                   (set_queues (insert k (Queue [] 0)) (self s1)) = true).
    { apply flush_joined_spec. intros k' q'.
      cbn [s1 self queues set_queues set_shutting_down].
      rewrite Hqs, map_fmap_singleton, insert_singleton_eq.
      intros Hk'. apply lookup_singleton_Some in Hk' as [_ <-]. reflexivity. }
    rewrite Hj. reflexivity.
  - destruct Hout as (done & failed & lost & before & _ & _ & _ & _ & _ & Hle).
    destruct (flush_joined _) eqn:Hj; [|reflexivity]. exfalso.
    pose proof (proj1 (flush_joined_spec _) Hj k
                  (Queue [] (S (length evs) - tasks_done r))) as H0.
    cbn [queues set_queues] in H0. rewrite lookup_insert_eq in H0.
    specialize (H0 eq_refl). cbn in H0. lia.
Qed.

(** C8, as amended.  The handler is shutting down.  Then [emit] leaves
    every queue as it was, a queue it creates is empty, and the handler is
    still shutting down afterwards, so that the same holds of every later
    [emit].  If the handler uses queues, the record is discarded: the only
    call that [emit] can make is the creation of the record's stream, never
    a [put_log_events]; the warning is issued when [emit] returns and is not
    when it raises; and [emit] returns, when the stream is known or its
    creation does not raise, unless building the event raises.  The first
    phase of [flush] sets the flag and puts the sentinel at the end of every
    queue, which counts it as an unfinished task.  Then [flush] blocks until
    no queue has an unfinished task: whatever the workers do in the
    meantime, it returns if then every counter is zero, and is still blocked
    if one is not.  On a handler with one queue, whose worker takes its items
    while [flush] waits: if the worker reaches the sentinel, every item is
    marked done and [flush] returns, the queue being empty; if a submission
    ended the worker, [flush] does not return. *)
Theorem late_arrivals_discarded_in_queue_mode message s :
  shutting_down (self s) = true →
  (let out := emit cwl_client format json_dumps message s in
   (∀ k q, queues (self s) !! k = Some q → queues (self out.2) !! k = Some q)
   ∧ (∀ k q, queues (self out.2) !! k = Some q →
             queues (self s) !! k = Some q ∨ q = empty_queue)
   ∧ shutting_down (self out.2) = true
   ∧ (use_queues (self s) = true →
      (∃ tl, calls (outside out.2) = calls (outside s) ++ tl
             ∧ Forall (fun c => c.1 = CreateLogStream (log_group (self s))
                                        (target_stream (self s) message)) tl)
      ∧ (out.1 = Return tt →
         warnings (outside out.2) = warnings (outside s) ++ [late_warning])
      ∧ (∀ x, out.1 = Raise x →
              warnings (outside out.2) = warnings (outside s))
      ∧ ((sequence_tokens (self s) !! target_stream (self s) message = None →
          created_or_exists
            (cwl_client (calls (outside s))
               (CreateLogStream (log_group (self s))
                                (target_stream (self s) message)))) →
         out.1 = match event_of format json_dumps message with
                 | Return _ => Return tt
                 | Raise x => Raise x
                 end)))
  ∧ (∀ s0,
       (flush_signal s0).1 = Return tt
       ∧ shutting_down (self (flush_signal s0).2) = true
       ∧ use_queues (self (flush_signal s0).2) = use_queues (self s0)
       ∧ ∀ k, queues (self (flush_signal s0).2) !! k
              = put END <$> queues (self s0) !! k)
  ∧ (∀ workers s0,
       let s2 := workers (flush_signal s0).2 in
       ((∀ k q, queues (self s2) !! k = Some q → unfinished_tasks q = 0%nat) →
        flush workers s0 = Some (Return tt, s2))
       ∧ (∀ k q, queues (self s2) !! k = Some q → unfinished_tasks q ≠ 0%nat →
                 flush workers s0 = None))
  ∧ (∀ k q evs my_queue start s0,
       queues (self s0) = {[k := q]} →
       queue_items q = map Msg evs →
       unfinished_tasks q = length evs →
       received my_queue = map Msg evs ++ [END] →
       let h := self s0 in
       let s1 := (flush_signal s0).2 in
       let out := batch_sender cwl_client my_queue start k (send_interval h)
                    (max_batch_size h) (max_batch_count h) s1 in
       match ending out.1 with
       | Finished =>
           flush (run_worker cwl_client my_queue start k) s0
           = Some (Return tt,
                   State (set_queues (insert k empty_queue) (self s1))
                         (outside out.2))
       | Crashed _ => flush (run_worker cwl_client my_queue start k) s0 = None
       | Waiting _ => False
       end).
Proof.
  intros Hdown. split; [|split; [|split]].
  - exact (emit_after_shutdown message s Hdown).
  - intros s0. rewrite flush_signal_spec. run_method.
    repeat split. intros k. apply lookup_fmap.
  - intros workers s0 s2. subst s2. unfold flush. rewrite flush_signal_spec.
    cbn [snd]. split.
    + intros Hzero. rewrite (proj2 (flush_joined_spec _) Hzero). reflexivity.
    + intros k q Hk Hq. destruct (flush_joined _) eqn:Hj; [|reflexivity].
      exfalso. apply Hq. exact (proj1 (flush_joined_spec _) Hj k q Hk).
  - intros k q evs my_queue start s0. apply flush_joins_worker.
Qed.

End Emit.

(** ** More on the submitter *)

Lemma retry_trace_all_stale n kw tr res :
  retry_trace n kw tr res →
  Forall stale_rejection tr →
  res = Return None ∧ length tr = n.
Proof.
  induction 1 as [kw|n kw r|n kw e tr res He Htr IH|n kw x Hx]; intros Hall.
  - auto.
  - apply Forall_cons in Hall as [(kw' & e' & Heq & _) _]. discriminate.
  - apply Forall_cons in Hall as [_ Hall].
    destruct (IH Hall) as [-> <-]. auto.
  - apply Forall_cons in Hall as [(kw' & e' & Heq & Hs) _].
    injection Heq as _ ->. rewrite (Hx e' eq_refl) in Hs. discriminate.
Qed.

Lemma retry_trace_returned n kw tr res r :
  retry_trace n kw tr res →
  res = Return (Some r) →
  ∃ pre kw', tr = pre ++ [(PutLogEvents kw', Returns r)]
             ∧ Forall stale_rejection pre.
Proof.
  induction 1 as [kw|n kw r0|n kw e tr res He Htr IH|n kw x Hx]; intros Hres.
  - discriminate.
  - injection Hres as ->. exists [], kw. split; [reflexivity|constructor].
  - destruct (IH Hres) as (pre & kw' & -> & Hpre).
    exists ((PutLogEvents kw, Raises (ClientError e)) :: pre), kw'.
    split; [reflexivity|]. constructor; [|exact Hpre].
    exists kw, e. auto.
  - discriminate.
Qed.

Section SubmitterEdges.

Variable cwl_client : list (request * reply) → request → reply.

Lemma submit_batch_unknown_stream batch stream max_retries s :
  batch ≠ [] →
  sequence_tokens (self s) !! stream = None →
  _submit_batch cwl_client batch stream max_retries s
  = (Raise (KeyError stream), s).
Proof.
  intros Hne Htok. destruct batch as [|e batch]; [contradiction|].
  unfold _submit_batch.
  replace (len (e :: batch) <? 1) with false
    by (symmetry; apply Z.ltb_ge; unfold len; simpl; lia).
  unfold bind, get_self. rewrite Htok. reflexivity.
Qed.

(** X4.  A non-empty batch for a stream that has no entry in
    [sequence_tokens] raises [KeyError] before any call is made; the state
    is untouched. *)
Theorem submit_unknown_stream_raises_key_error batch stream max_retries s :
  batch ≠ [] →
  sequence_tokens (self s) !! stream = None →
  _submit_batch cwl_client batch stream max_retries s
  = (Raise (KeyError stream), s).
Proof. apply submit_batch_unknown_stream. Qed.

(** X1.  When every call of a submission is rejected with a stale token, the
    submission makes exactly [max_retries] calls (none if [max_retries] is
    not positive) and then raises [UnboundLocalError]: the loop ended
    without binding [response]. *)
Theorem submit_retries_exhausted batch stream max_retries s token :
  batch ≠ [] →
  sequence_tokens (self s) !! stream = Some token →
  ∃ tr,
    (_submit_batch cwl_client batch stream max_retries s).2 = record_calls tr s
    ∧ (Forall stale_rejection tr →
       (_submit_batch cwl_client batch stream max_retries s).1
       = Raise UnboundLocalError
       ∧ length tr = Z.to_nat max_retries).
Proof.
  intros Hne Htok.
  destruct (submit_batch_spec cwl_client batch stream max_retries s token Hne Htok)
    as (tr & res & Htr & ->).
  exists tr. split; [reflexivity|]. intros Hall.
  destruct (retry_trace_all_stale _ _ _ _ Htr Hall) as [-> Hlen]. auto.
Qed.

(** X2.  A submission of a non-empty batch returns normally only if its
    last call was accepted with no [rejectedLogEventsInfo] in the reply, and
    every call before it was rejected with a stale token. *)
Theorem submit_returns_after_clean_accept batch stream max_retries s :
  batch ≠ [] →
  (_submit_batch cwl_client batch stream max_retries s).1 = Return tt →
  ∃ pre kw r,
    (_submit_batch cwl_client batch stream max_retries s).2
    = record_calls (pre ++ [(PutLogEvents kw, Returns r)]) s
    ∧ rejectedLogEventsInfo r = None
    ∧ Forall stale_rejection pre.
Proof.
  intros Hne.
  destruct (sequence_tokens (self s) !! stream) as [token|] eqn:Htok.
  - destruct (submit_batch_spec cwl_client batch stream max_retries s token Hne Htok)
      as (tr & res & Htr & ->).
    cbn [fst snd]. intros Hres.
    destruct res as [[r|]|x]; simpl in Hres; try discriminate.
    destruct (rejectedLogEventsInfo r) eqn:Hrej; [discriminate|].
    destruct (retry_trace_returned _ _ _ _ r Htr eq_refl) as (pre & kw & -> & Hpre).
    exists pre, kw, r. auto.
  - rewrite (submit_batch_unknown_stream batch stream max_retries s Hne Htok).
    discriminate.
Qed.

(** X3.  An accepted call whose reply has [rejectedLogEventsInfo] ends the
    submission: it is the last call, it is not retried, and the submission
    raises the delivery failure built from that reply. *)
Theorem submit_partial_rejection_is_fatal batch stream max_retries s :
  ∃ tr,
    (_submit_batch cwl_client batch stream max_retries s).2 = record_calls tr s
    ∧ ∀ (i : nat) kw r info,
        tr !! i = Some (PutLogEvents kw, Returns r) →
        rejectedLogEventsInfo r = Some info →
        (_submit_batch cwl_client batch stream max_retries s).1
        = Raise (DeliveryFailure r)
        ∧ length tr = S i.
Proof.
  destruct batch as [|e0 batch].
  { exists []. rewrite record_calls_nil. split; [reflexivity|]. intros; discriminate. }
  destruct (sequence_tokens (self s) !! stream) as [token|] eqn:Htok.
  - destruct (submit_batch_spec cwl_client (e0 :: batch) stream max_retries s token)
      as (tr & res & Htr & ->); [discriminate|exact Htok|].
    exists tr. split; [reflexivity|]. intros i kw r info Hi Hrej.
    destruct (retry_trace_accepted _ _ _ _ Htr i kw r Hi) as [-> Hlen].
    simpl. rewrite Hrej. auto.
  - rewrite (submit_batch_unknown_stream (e0 :: batch) stream
               max_retries s); [|discriminate|exact Htok].
    exists []. rewrite record_calls_nil. split; [reflexivity|]. intros; discriminate.
Qed.

End SubmitterEdges.

(** ** More on the pure functions *)

Lemma rsplit_fold_no_space (s acc : pystr) :
  32%N ∉ s →
  fold_left (fun acc c => if (c =? 32)%N then [] else acc ++ [c]) s acc
  = acc ++ s.
Proof.
  revert acc. induction s as [|c s IH]; intros acc Hno; simpl.
  - rewrite app_nil_r. reflexivity.
  - apply not_elem_of_cons in Hno as [Hc Hs].
    destruct (c =? 32)%N eqn:E; [apply N.eqb_eq in E; congruence|].
    rewrite (IH _ Hs), <- app_assoc. reflexivity.
Qed.

(** X5.  The token taken from a rejection's message (line 97) is what
    follows the last space of the message: if the text after a space has no
    space itself, it is the result, whatever precedes; a message without any
    space is returned whole. *)
Theorem rsplit_last_takes_last_word (pre word : pystr) :
  32%N ∉ word →
  rsplit_last (pre ++ 32%N :: word) = word ∧ rsplit_last word = word.
Proof.
  intros Hno. unfold rsplit_last. split.
  - rewrite fold_left_app. simpl. apply (rsplit_fold_no_space word [] Hno).
  - apply (rsplit_fold_no_space word [] Hno).
Qed.

(** X6.  A batch whose timestamps are already in non-decreasing order is
    submitted as it is: sorting does not move any event. *)
Theorem sorted_keeps_in_order_batch (batch : list event) :
  StronglySorted by_timestamp batch → sorted batch = batch.
Proof. intros Hs. apply (sort_from_in_order batch [] Hs). Qed.

(** X19.  The timestamp of an event is the product [created * 1000] as line
    114 computes it, a product of doubles, rounded, and then truncated.  For
    the record created at 1700000000.428 it is 1700000000428, and this is the
    event that [emit] queues; the product of the same two numbers without the
    rounding would be truncated to 1700000000427. *)
Theorem timestamp_rounds_the_product :
  event_of plain_format no_json dated_record
  = Return (Event 1700000000428 (str "web"))
  ∧ items_of (self (emit accepting_client plain_format no_json dated_record
                         web_state).2) (str "web")
    = [Msg (Event 1700000000428 (str "web"))]
  ∧ Prim2SF (created dated_record) = S754_finite false 7130316801795162 (-22)
  ∧ 7130316801795162 * 1000 / 2 ^ 22 = 1700000000427.
Proof. vm_compute. repeat split. Qed.

(** ** More on the worker *)

Section WorkerRuns.

Variable cwl_client : list (request * reply) → request → reply.
Variables (stream : pystr) (send_interval max_batch_size max_batch_count : Z).

Local Abbreviation loop :=
  (sender_loop cwl_client stream send_interval max_batch_size max_batch_count).
Local Abbreviation submit b :=
  (_submit_batch cwl_client b stream default_max_retries).

Lemma sender_loop_conserves my_queue :
  ∀ evs st s,
    received my_queue = map Msg evs →
    match ending (loop st my_queue s).1 with
    | Waiting st' =>
        concat (handed (loop st my_queue s).1) ++ cur_batch st'
        = cur_batch st ++ evs
        ∧ tasks_done (loop st my_queue s).1 = length evs
    | Crashed _ =>
        ∃ lost, concat (handed (loop st my_queue s).1) ++ lost
                = cur_batch st ++ evs
    | Finished => False
    end.
Proof.
  induction my_queue as [|p rest IH]; intros evs st s Hrec; cbn [sender_loop].
  - destruct evs; [|discriminate]. simpl. rewrite app_nil_r. auto.
  - rewrite received_cons in Hrec.
    destruct (got p) as [[m|]|] eqn:Hgot.
    + destruct evs as [|m' evs]; [discriminate|].
      simpl in Hrec. injection Hrec as <- Hrec.
      destruct (must_flush st (Some (Msg m)) (clock_at_test p) max_batch_size
                           max_batch_count).
      * destruct (submit (cur_batch st) s) as [[[]|x] s1].
        -- specialize (IH evs (new_batch (Some m) (clock_at_restart p) send_interval)
                          s1 Hrec).
           destruct (loop _ rest s1) as [r s2]. simpl in *.
           destruct (ending r) as [|st'|x].
           ++ exact IH.
           ++ destruct IH as [Hcat Hdone]. rewrite <- app_assoc, Hcat, Hdone. auto.
           ++ destruct IH as [lost Hcat]. exists lost.
              rewrite <- app_assoc, Hcat. reflexivity.
        -- simpl. exists (m :: evs). rewrite app_nil_r. reflexivity.
      * specialize (IH evs (SenderState (cur_batch st ++ [m])
                                        (cur_batch_size st + size m)
                                        (cur_batch_msg_count st + 1)
                                        (cur_batch_deadline st)) s Hrec).
        destruct (loop _ rest s) as [r s2]. simpl in *.
        destruct (ending r) as [|st'|x].
        -- exact IH.
        -- destruct IH as [Hcat Hdone]. rewrite Hcat, Hdone, <- app_assoc. auto.
        -- destruct IH as [lost Hcat]. exists lost.
           rewrite Hcat, <- app_assoc. reflexivity.
    + destruct evs; discriminate.
    + simpl. destruct (submit (cur_batch st) s) as [[[]|x] s1].
      * specialize (IH evs (new_batch None (clock_at_restart p) send_interval)
                       s1 Hrec).
        destruct (loop _ rest s1) as [r s2]. simpl in *.
        destruct (ending r) as [|st'|x].
        -- exact IH.
        -- destruct IH as [Hcat Hdone]. rewrite <- app_assoc, Hcat, Hdone. auto.
        -- destruct IH as [lost Hcat]. exists lost.
           rewrite <- app_assoc, Hcat. reflexivity.
      * simpl. exists evs. rewrite app_nil_r. reflexivity.
Qed.

(** X12.  While no sentinel has arrived, whatever the timeouts, the clock
    and the outcomes of the submissions: if the worker is still running,
    every event received so far is, in order and once, either in a batch
    passed to the submitter or in the current batch, and [task_done] was
    called once per event; if a submission raised, the batches passed to the
    submitter, the failed one last, are a prefix of the events received. *)
Theorem worker_conserves_events my_queue evs start s :
  let out := batch_sender cwl_client my_queue start stream send_interval
               max_batch_size max_batch_count s in
  received my_queue = map Msg evs →
  match ending out.1 with
  | Waiting st =>
      concat (handed out.1) ++ cur_batch st = evs
      ∧ tasks_done out.1 = length evs
  | Crashed _ => ∃ lost, concat (handed out.1) ++ lost = evs
  | Finished => False
  end.
Proof.
  intros out Hrec. subst out. unfold batch_sender.
  exact (sender_loop_conserves my_queue evs
           (new_batch None start send_interval) s Hrec).
Qed.

Lemma sender_loop_stops_at_sentinel pre :
  ∀ p post st s,
    got p = Some END →
    loop st (pre ++ p :: post) s = loop st (pre ++ [p]) s.
Proof.
  induction pre as [|a pre IH]; intros p post st s Hp.
  - cbn [app sender_loop]. rewrite Hp. cbn [must_flush].
    destruct (submit (cur_batch st) s) as [[[]|x] s1]; reflexivity.
  - cbn [app sender_loop].
    destruct (must_flush st (got a) (clock_at_test a) max_batch_size
                         max_batch_count).
    + destruct (submit (cur_batch st) s) as [[[]|x] s1]; [|reflexivity].
      destruct (got a) as [[m|]|]; [|reflexivity|];
        rewrite (IH p post _ s1 Hp); reflexivity.
    + destruct (got a) as [[m|]|]; rewrite (IH p post _ s Hp); reflexivity.
Qed.

(** X13.  The worker takes nothing from its queue after the sentinel:
    whatever is put behind the sentinel does not change what the worker does,
    and is never submitted nor marked done. *)
Theorem worker_stops_at_sentinel pre p post start s :
  got p = Some END →
  batch_sender cwl_client (pre ++ p :: post) start stream send_interval
    max_batch_size max_batch_count s
  = batch_sender cwl_client (pre ++ [p]) start stream send_interval
      max_batch_size max_batch_count s.
Proof.
  intros Hp. unfold batch_sender.
  apply sender_loop_stops_at_sentinel, Hp.
Qed.

Lemma submit_batch_nil s : submit [] s = (Return tt, s).
Proof. reflexivity. Qed.

Lemma sender_loop_idle my_queue :
  ∀ st s,
    Forall (fun p => got p = None) my_queue →
    cur_batch st = [] →
    (loop st my_queue s).2 = s
    ∧ Forall (fun b => b = []) (handed (loop st my_queue s).1)
    ∧ tasks_done (loop st my_queue s).1 = 0%nat
    ∧ ∃ st', ending (loop st my_queue s).1 = Waiting st' ∧ cur_batch st' = [].
Proof.
  induction my_queue as [|p rest IH]; intros st s Hall Hst; cbn [sender_loop].
  - simpl. repeat split; [constructor|]. exists st. auto.
  - apply Forall_cons in Hall as [Hp Hall]. rewrite Hp. cbn [must_flush].
    rewrite Hst, submit_batch_nil.
    destruct (IH (new_batch None (clock_at_restart p) send_interval) s Hall
                 eq_refl) as (Hs & Hh & Hd & Hw).
    destruct (loop _ rest s) as [r s2]. simpl in *.
    repeat split; auto.
Qed.

(** X14.  A worker whose every poll times out calls neither the service
    nor [task_done], and changes nothing: it passes only empty batches to the
    submitter, which ignores them, and is still waiting with an empty
    batch. *)
Theorem idle_worker_makes_no_call my_queue start s :
  let out := batch_sender cwl_client my_queue start stream send_interval
               max_batch_size max_batch_count s in
  Forall (fun p => got p = None) my_queue →
  out.2 = s
  ∧ Forall (fun b => b = []) (handed out.1)
  ∧ tasks_done out.1 = 0%nat
  ∧ ∃ st, ending out.1 = Waiting st ∧ cur_batch st = [].
Proof.
  intros out Hall. subst out. unfold batch_sender.
  apply sender_loop_idle; [exact Hall|reflexivity].
Qed.

Lemma submit_calls b s :
  ∃ tr,
    (submit b s).2 = record_calls tr s
    ∧ (b = [] → tr = [])
    ∧ Forall (fun c => ∃ token,
                c.1 = PutLogEvents (PutKwargs (log_group (self s)) stream
                                              (sorted b) token)) tr.
Proof.
  destruct b as [|e b].
  - exists []. rewrite record_calls_nil. repeat split; auto.
  - destruct (sequence_tokens (self s) !! stream) as [token|] eqn:Htok.
    + destruct (submit_batch_spec cwl_client (e :: b) stream default_max_retries
                  s token) as (tr & res & Htr & ->); [discriminate|exact Htok|].
      exists tr. split; [reflexivity|]. split; [discriminate|].
      exact (retry_trace_requests _ _ _ _ Htr).
    + rewrite (submit_batch_unknown_stream cwl_client (e :: b) stream
                 default_max_retries s); [|discriminate|exact Htok].
      exists []. rewrite record_calls_nil. repeat split; auto.
Qed.

Lemma sender_loop_effects my_queue :
  ∀ st s,
    ∃ tr,
      (loop st my_queue s).2
      = State (self s)
              (World (calls (outside s) ++ tr) (warnings (outside s))
                     (crash_file (outside s)
                      ++ crash_entries (ending (loop st my_queue s).1)))
      ∧ ∀ c, In c tr →
          ∃ token b,
            c.1 = PutLogEvents (PutKwargs (log_group (self s)) stream
                                          (sorted b) token)
            ∧ In b (handed (loop st my_queue s).1)
            ∧ b ≠ [].
Proof.
  induction my_queue as [|p rest IH]; intros st s; cbn [sender_loop].
  - exists []. simpl. rewrite !app_nil_r. destruct s as [h [c w f]].
    split; [reflexivity|]. intros c0 [].
  - destruct (submit_calls (cur_batch st) s) as (tr1 & Hs1 & Hnil & Hall1).
    assert (Hfirst : ∀ c, In c tr1 →
              ∃ token b,
                c.1 = PutLogEvents (PutKwargs (log_group (self s)) stream
                                              (sorted b) token)
                ∧ b = cur_batch st ∧ b ≠ []).
    { intros c Hc. rewrite List.Forall_forall in Hall1.
      destruct (Hall1 c Hc) as [token Htok]. exists token, (cur_batch st).
      split; [exact Htok|]. split; [reflexivity|].
      intros Hb. rewrite (Hnil Hb) in Hc. destruct Hc. }
    assert (Hflush : ∀ (msg : option event) (done : nat),
      let out := (let (r, s2) :=
                    loop (new_batch msg (clock_at_restart p) send_interval)
                         rest (record_calls tr1 s) in
                  (after_flush (cur_batch st) done r, s2)) in
      ∃ tr,
        out.2 = State (self s)
                  (World (calls (outside s) ++ tr) (warnings (outside s))
                     (crash_file (outside s) ++ crash_entries (ending out.1)))
        ∧ ∀ c, In c tr →
            ∃ token b,
              c.1 = PutLogEvents (PutKwargs (log_group (self s)) stream
                                            (sorted b) token)
              ∧ In b (handed out.1) ∧ b ≠ []).
    { intros msg done.
      destruct (IH (new_batch msg (clock_at_restart p) send_interval)
                   (record_calls tr1 s)) as (tr2 & Hs2 & Hall2).
      destruct (loop _ rest (record_calls tr1 s)) as [r s2].
      cbn [fst snd self outside record_calls calls warnings crash_file
           after_flush handed ending] in *.
      exists (tr1 ++ tr2). rewrite Hs2, app_assoc. split; [reflexivity|].
      intros c Hc. apply in_app_or in Hc as [Hc|Hc].
      - destruct (Hfirst c Hc) as (token & b & Heq & -> & Hne).
        exists token, (cur_batch st). split; [exact Heq|].
        split; [left; reflexivity|exact Hne].
      - destruct (Hall2 c Hc) as (token & b & Heq & Hin & Hne).
        exists token, b. split; [exact Heq|]. split; [right; exact Hin|exact Hne]. }
    destruct (must_flush st (got p) (clock_at_test p) max_batch_size
                         max_batch_count).
    + destruct (submit (cur_batch st) s) as [[[]|x] s1]; cbn [snd] in Hs1;
        subst s1.
      * destruct (got p) as [[m|]|].
        -- exact (Hflush (Some m) 1%nat).
        -- exists tr1. cbn [fst snd ending handed crash_entries].
           rewrite app_nil_r. split; [reflexivity|].
           intros c Hc. destruct (Hfirst c Hc) as (token & b & Heq & -> & Hne).
           exists token, (cur_batch st). split; [exact Heq|].
           split; [left; reflexivity|exact Hne].
        -- exact (Hflush None 0%nat).
      * exists tr1. cbn [fst snd ending handed crash_entries].
        split; [reflexivity|].
        intros c Hc. destruct (Hfirst c Hc) as (token & b & Heq & -> & Hne).
        exists token, (cur_batch st). split; [exact Heq|].
        split; [left; reflexivity|exact Hne].
    + destruct (got p) as [[m|]|].
      * destruct (IH (SenderState (cur_batch st ++ [m])
                                  (cur_batch_size st + size m)
                                  (cur_batch_msg_count st + 1)
                                  (cur_batch_deadline st)) s)
          as (tr2 & Hs2 & Hall2).
        destruct (loop _ rest s) as [r s2].
        cbn [fst snd after_append handed ending] in *.
        exists tr2. split; [exact Hs2|exact Hall2].
      * apply IH.
      * apply IH.
Qed.

(** X15.  All that a worker does to the state: it leaves the handler object
    and the warnings as they were; each call it makes is a [put_log_events]
    for its own stream in the handler's group, whose event list is, sorted, a
    non-empty batch that the worker passed to the submitter; and its crash
    file receives the exception that ended it, if one did, and nothing
    else. *)
Theorem worker_effects my_queue start s :
  let out := batch_sender cwl_client my_queue start stream send_interval
               max_batch_size max_batch_count s in
  ∃ tr,
    out.2
    = State (self s)
            (World (calls (outside s) ++ tr) (warnings (outside s))
                   (crash_file (outside s) ++ crash_entries (ending out.1)))
    ∧ ∀ c, In c tr →
        ∃ token b,
          c.1 = PutLogEvents (PutKwargs (log_group (self s)) stream
                                        (sorted b) token)
          ∧ In b (handed out.1)
          ∧ b ≠ [].
Proof. intros out. subst out. unfold batch_sender. apply sender_loop_effects. Qed.

Lemma batch_size_nonneg (b : list event) : 0 <= batch_size b.
Proof.
  induction b as [|e b IH]; simpl; [lia|].
  unfold size. pose proof (len_nonneg (message e)). lia.
Qed.

Lemma sender_loop_single_batch pre :
  ∀ evs st s p_end,
    cur_batch_size st = batch_size (cur_batch st) →
    cur_batch_msg_count st = len (cur_batch st) →
    map got pre = map (fun e => Some (Msg e)) evs →
    Forall (fun p => clock_at_test p < cur_batch_deadline st) pre →
    batch_size (cur_batch st ++ evs) <= max_batch_size →
    len (cur_batch st ++ evs) <= max_batch_count →
    got p_end = Some END →
    handed (loop st (pre ++ [p_end]) s).1 = [cur_batch st ++ evs].
Proof.
  induction pre as [|p pre IH];
    intros evs st s p_end Hsize Hcount Hgot Hclock Hfit Hnum Hend;
    cbn [app sender_loop].
  - destruct evs; [|discriminate]. rewrite Hend, app_nil_r. cbn [must_flush].
    destruct (submit (cur_batch st) s) as [[[]|x] s1]; reflexivity.
  - destruct evs as [|m evs]; [discriminate|].
    cbn [map] in Hgot. injection Hgot as Hp Hgot.
    apply Forall_cons in Hclock as [Hnow Hclock].
    rewrite batch_size_app in Hfit. rewrite len_app in Hnum.
    cbn [batch_size fold_right] in Hfit.
    pose proof (batch_size_nonneg evs) as Hpos.
    fold (batch_size evs) in Hfit.
    assert (Hlen : len (m :: evs) = 1 + len evs) by (unfold len; simpl; lia).
    pose proof (len_nonneg evs) as Hlpos.
    assert (Hno : must_flush st (got p) (clock_at_test p) max_batch_size
                    max_batch_count = false).
    { rewrite Hp. cbn [must_flush]. rewrite Hsize, Hcount.
      rewrite Z.gtb_ltb, Z.geb_leb, Z.geb_leb.
      rewrite (proj2 (Z.ltb_ge _ _)) by lia.
      rewrite (proj2 (Z.leb_gt _ _)) by lia.
      rewrite (proj2 (Z.leb_gt _ _)) by lia. reflexivity. }
    rewrite Hno, Hp.
    specialize (IH evs (SenderState (cur_batch st ++ [m])
                                    (cur_batch_size st + size m)
                                    (cur_batch_msg_count st + 1)
                                    (cur_batch_deadline st)) s p_end).
    cbn [cur_batch cur_batch_size cur_batch_msg_count cur_batch_deadline] in IH.
    rewrite <- app_assoc in IH. cbn [app] in IH.
    destruct (loop _ (pre ++ [p_end]) s) as [r s2].
    cbn [fst after_append handed] in *.
    apply IH; auto.
    + rewrite batch_size_app, Hsize. simpl. lia.
    + rewrite len_app, Hcount. unfold len. simpl. lia.
    + rewrite batch_size_app. cbn [batch_size fold_right].
      fold (batch_size evs). lia.
    + rewrite len_app. lia.
Qed.

(** X18.  Events that fit are sent together.  If the events [evs] arrive
    one after the other with no timeout, each before the deadline of the
    batch, followed by the sentinel, and together they are within
    [max_batch_size] and [max_batch_count], the worker passes them to the
    submitter as one batch, in their order of arrival. *)
Theorem worker_sends_fitting_events_together pre p_end evs start s :
  map got pre = map (fun e => Some (Msg e)) evs →
  Forall (fun p => clock_at_test p < start + send_interval) pre →
  batch_size evs <= max_batch_size →
  len evs <= max_batch_count →
  got p_end = Some END →
  handed (batch_sender cwl_client (pre ++ [p_end]) start stream send_interval
            max_batch_size max_batch_count s).1
  = [evs].
Proof.
  intros Hgot Hclock Hfit Hnum Hend. unfold batch_sender.
  apply (sender_loop_single_batch pre evs (new_batch None start send_interval)
           s p_end); auto.
Qed.

End WorkerRuns.

(** ** More on the handler *)

Section EmitEffects.

Variable cwl_client : list (request * reply) → request → reply.
Variable format : LogRecord → result rendered.
Variable json_dumps : list (pystr * pystr) → result pystr.

Local Abbreviation emit' := (emit cwl_client format json_dumps).

(** X10.  On a handler that uses queues, [emit] for a stream that already
    has a sequencing token never calls the service: the history of calls is
    unchanged; and it returns unless building the event of the record raises,
    in which case it raises the same. *)
Theorem emit_known_stream_makes_no_call message s :
  use_queues (self s) = true →
  is_Some (sequence_tokens (self s) !! target_stream (self s) message) →
  (emit' message s).1 = match event_of format json_dumps message with
                        | Return _ => Return tt
                        | Raise x => Raise x
                        end
  ∧ calls (outside (emit' message s).2) = calls (outside s).
Proof.
  intros Huse [tok Htok].
  rewrite (emit_spec cwl_client format json_dumps message s);
    [|rewrite Htok; discriminate].
  rewrite Htok, Huse.
  destruct (event_of format json_dumps message) as [msg|x]; split; reflexivity.
Qed.

Lemma emit_enqueues message s :
  use_queues (self s) = true →
  shutting_down (self s) = false →
  (∀ history group k,
     created_or_exists (cwl_client history (CreateLogStream group k))) →
  use_queues (self (emit' message s).2) = true
  ∧ shutting_down (self (emit' message s).2) = false
  ∧ stream_name (self (emit' message s).2) = stream_name (self s)
  ∧ ∀ k, items_of (self (emit' message s).2) k
         = items_of (self s) k
           ++ (if decide (target_stream (self s) message = k)
               then match built format json_dumps message with
                    | Some msg => [Msg msg]
                    | None => []
                    end
               else []).
Proof.
  intros Huse Hdown Hcreate.
  rewrite (emit_spec cwl_client format json_dumps message s);
    [|intros _; apply Hcreate].
  rewrite Huse, Hdown. unfold built.
  set (stream := target_stream (self s) message).
  destruct (event_of format json_dumps message) as [msg|x].
  - cbn [fst snd self use_queues shutting_down stream_name].
    repeat split. intros k. unfold items_of. cbn [queues].
    destruct (decide (stream = k)) as [<-|Hne].
    + rewrite lookup_alter_eq.
      destruct (queues (self s) !! stream) as [q|] eqn:Hq.
      * rewrite Hq. reflexivity.
      * rewrite lookup_insert_eq. reflexivity.
    + rewrite lookup_alter_ne by exact Hne.
      destruct (queues (self s) !! stream) as [q|] eqn:Hq.
      * rewrite app_nil_r. reflexivity.
      * rewrite lookup_insert_ne by exact Hne. rewrite app_nil_r. reflexivity.
  - cbn [snd].
    destruct (sequence_tokens (self s) !! stream);
      cbn [self use_queues shutting_down stream_name set_sequence_tokens];
      (repeat split; auto); intros k; unfold items_of; cbn [queues];
      destruct (decide (stream = k)); rewrite app_nil_r; reflexivity.
Qed.

Lemma emit_all_items records s :
  use_queues (self s) = true →
  shutting_down (self s) = false →
  (∀ history group k,
     created_or_exists (cwl_client history (CreateLogStream group k))) →
  ∀ k,
    items_of (self (emit_all cwl_client format json_dumps records s)) k
    = items_of (self s) k
      ++ map Msg (omap (built format json_dumps)
                       (filter (fun r => target_stream (self s) r = k) records)).
Proof.
  intros Huse Hdown Hcreate. revert s Huse Hdown.
  induction records as [|r records IH]; intros s Huse Hdown k; cbn [emit_all].
  - simpl. rewrite app_nil_r. reflexivity.
  - destruct (emit_enqueues r s Huse Hdown Hcreate) as (Hu & Hd & Hn & Hitems).
    rewrite (IH _ Hu Hd k), Hitems, filter_cons, <- app_assoc.
    assert (Htarget : ∀ r', target_stream (self (emit' r s).2) r'
                            = target_stream (self s) r')
      by (intros r'; unfold target_stream; rewrite Hn; reflexivity).
    f_equal.
    replace (filter (fun r0 => target_stream (self (emit' r s).2) r0 = k) records)
      with (filter (fun r0 => target_stream (self s) r0 = k) records).
    + destruct (decide (target_stream (self s) r = k)); [|reflexivity].
      destruct (built format json_dumps r) as [msg|] eqn:Hb;
        simpl; rewrite Hb; reflexivity.
    + apply list_filter_iff. intros r'. rewrite Htarget. reflexivity.
Qed.

(** X7.  The handler uses queues and is not shutting down, and no create
    call raises.  Then after [emit] was called for the records [records] in
    turn, the queue of each stream holds what it held before, followed by the
    events of the records that go to this stream and whose event could be
    built, in the order of the calls: nothing else is lost, nothing is
    repeated or put in another stream's queue.  A record whose event cannot
    be built (the call raised) is in no queue. *)
Theorem emit_enqueues_in_order records s :
  use_queues (self s) = true →
  shutting_down (self s) = false →
  (∀ history group k,
     created_or_exists (cwl_client history (CreateLogStream group k))) →
  ∀ k,
    items_of (self (emit_all cwl_client format json_dumps records s)) k
    = items_of (self s) k
      ++ map Msg (omap (built format json_dumps)
                       (filter (fun r => target_stream (self s) r = k) records)).
Proof. apply emit_all_items. Qed.

Lemma emit_direct_effects message s :
  use_queues (self s) = false →
  queues (self (emit' message s).2) = queues (self s)
  ∧ threads (self (emit' message s).2) = threads (self s)
  ∧ shutting_down (self (emit' message s).2) = shutting_down (self s)
  ∧ warnings (outside (emit' message s).2) = warnings (outside s)
  ∧ crash_file (outside (emit' message s).2) = crash_file (outside s)
  ∧ (sequence_tokens (self (emit' message s).2) = sequence_tokens (self s)
     ∨ sequence_tokens (self (emit' message s).2)
       = <[target_stream (self s) message := None]> (sequence_tokens (self s)))
  ∧ (is_Some (sequence_tokens (self s) !! target_stream (self s) message) →
     emit' message s
     = match event_of format json_dumps message with
       | Return msg =>
           _submit_batch cwl_client [msg] (target_stream (self s) message)
             default_max_retries s
       | Raise x => (Raise x, s)
       end).
Proof.
  intros Huse.
  destruct (emit_known_or_created cwl_client message s) as [Hc|[Htok Hc]].
  - rewrite (emit_spec cwl_client format json_dumps message s Hc).
    rewrite Huse.
    set (stream := target_stream (self s) message).
    destruct (sequence_tokens (self s) !! stream) as [tok|] eqn:Htok;
      (destruct (event_of format json_dumps message) as [msg|x];
       [match goal with
        | |- context [_submit_batch cwl_client ?b ?n ?r ?s0] =>
            destruct (submit_batch_frame cwl_client b n r s0) as [tr Htr];
            rewrite !Htr
        end|]);
      cbn [snd record_calls self outside queues threads shutting_down warnings
           crash_file sequence_tokens set_sequence_tokens];
      repeat split; auto; intros [? ?]; discriminate.
  - destruct (emit_create_fails cwl_client format json_dumps message s Htok Hc)
      as (x & _ & ->).
    cbn [snd record_calls self outside warnings crash_file].
    repeat split; auto. intros [? Hk]. rewrite Htok in Hk. discriminate.
Qed.

(** X8.  On a handler that does not use queues, [emit] never creates a
    queue or a worker thread, never issues a warning and never reads the
    shutting-down flag: the queues, the threads, the flag, the warnings and
    the crash file are as before.  For a stream that has its token, [emit] is
    the submission of the single event of the record, with the default number
    of attempts; if building that event raises, [emit] raises the same and
    nothing is submitted. *)
Theorem emit_without_queues_only_submits message s :
  use_queues (self s) = false →
  queues (self (emit' message s).2) = queues (self s)
  ∧ threads (self (emit' message s).2) = threads (self s)
  ∧ shutting_down (self (emit' message s).2) = shutting_down (self s)
  ∧ warnings (outside (emit' message s).2) = warnings (outside s)
  ∧ crash_file (outside (emit' message s).2) = crash_file (outside s)
  ∧ (sequence_tokens (self (emit' message s).2) = sequence_tokens (self s)
     ∨ sequence_tokens (self (emit' message s).2)
       = <[target_stream (self s) message := None]> (sequence_tokens (self s)))
  ∧ (is_Some (sequence_tokens (self s) !! target_stream (self s) message) →
     emit' message s
     = match event_of format json_dumps message with
       | Return msg =>
           _submit_batch cwl_client [msg] (target_stream (self s) message)
             default_max_retries s
       | Raise x => (Raise x, s)
       end).
Proof. apply emit_direct_effects. Qed.

(** What [emit] can do to the registries, in every case: the tokens only
    grow; and either the queues keep their streams and the threads are the
    same, or the record's stream had no queue and gets one, with its token and
    one more thread. *)
Lemma emit_registries message s :
  let h := self s in
  let h' := self (emit' message s).2 in
  let stream := target_stream h message in
  (∀ k, is_Some (sequence_tokens h !! k) → is_Some (sequence_tokens h' !! k))
  ∧ (((∀ k, is_Some (queues h' !! k) ↔ is_Some (queues h !! k))
      ∧ threads h' = threads h)
     ∨ (queues h !! stream = None
        ∧ is_Some (sequence_tokens h' !! stream)
        ∧ map thread_stream (threads h')
          = map thread_stream (threads h) ++ [stream]
        ∧ ∀ k, is_Some (queues h' !! k) ↔ stream = k ∨ is_Some (queues h !! k))).
Proof.
  intros h h' stream. subst h'.
  assert (Hkept : ∀ s1 : state,
    s1 = match sequence_tokens h !! stream with
         | Some _ => s
         | None =>
             State (set_sequence_tokens (insert stream None) h)
                   (World (calls (outside s)
                           ++ [(CreateLogStream (log_group h) stream,
                                cwl_client (calls (outside s))
                                  (CreateLogStream (log_group h) stream))])
                          (warnings (outside s)) (crash_file (outside s)))
         end →
    (∀ k, is_Some (sequence_tokens h !! k) →
          is_Some (sequence_tokens (self s1) !! k))
    ∧ is_Some (sequence_tokens (self s1) !! stream)
    ∧ queues (self s1) = queues h
    ∧ threads (self s1) = threads h).
  { intros s1 ->. destruct (sequence_tokens h !! stream) as [tok|] eqn:Htok.
    - repeat split; eauto.
    - cbn [self set_sequence_tokens sequence_tokens queues threads].
      repeat split.
      + intros k Hk. apply lookup_insert_is_Some'. auto.
      + rewrite lookup_insert_eq. eauto. }
  destruct (emit_known_or_created cwl_client message s) as [Hc|[Htok Hc]].
  - rewrite (emit_spec cwl_client format json_dumps message s Hc).
    fold h stream.
    match goal with
    | |- context [_submit_batch _ _ _ _ ?s0] =>
        destruct (Hkept s0 eq_refl) as (Hgrow & Hnew & Hq1 & Hth1);
        clear Hkept; set (s1 := s0) in *; clearbody s1
    end.
    destruct (event_of format json_dumps message) as [msg|x].
    + destruct (use_queues h) eqn:Huse.
      * cbn [snd self sequence_tokens queues threads].
        split; [exact Hgrow|].
        destruct (queues h !! stream) as [q|] eqn:Hq.
        -- left. split; [|reflexivity]. intros k.
           destruct (shutting_down h); [reflexivity|apply lookup_alter_is_Some].
        -- right. split; [reflexivity|]. split; [exact Hnew|].
           split; [rewrite map_app; reflexivity|]. intros k.
           destruct (shutting_down h); rewrite ?lookup_alter_is_Some;
             apply lookup_insert_is_Some'.
      * destruct (submit_batch_frame cwl_client [msg] stream default_max_retries s1)
          as [tr ->].
        cbn [record_calls self]. rewrite Hq1, Hth1.
        split; [exact Hgrow|]. left. split; reflexivity.
    + cbn [snd]. rewrite Hq1, Hth1.
      split; [exact Hgrow|]. left. split; reflexivity.
  - destruct (emit_create_fails cwl_client format json_dumps message s Htok Hc)
      as (x & _ & ->).
    cbn [snd record_calls self]. split; [auto|]. left. split; reflexivity.
Qed.

(** X9.  The registries of the handler stay in agreement.  In the handler
    that [__init__] builds, and from then on after every [emit] and every
    first phase of [flush], whatever the service answers: a stream that has a
    queue has a sequencing token, so that the submissions of its worker find
    one; the worker threads are exactly one per stream that has a queue. *)
Theorem registry_invariant :
  (∀ group stream use_queues send_interval max_batch_size max_batch_count
     create_log_group s,
     registry_ok (self (__init__ cwl_client group stream use_queues send_interval
                           max_batch_size max_batch_count create_log_group s).2))
  ∧ (∀ message s,
       registry_ok (self s) → registry_ok (self (emit' message s).2))
  ∧ (∀ s, registry_ok (self s) → registry_ok (self (flush_signal s).2)).
Proof.
  split; [|split].
  - intros group stream uq si ms mc create s.
    assert (Hself : self (__init__ cwl_client group stream uq si ms mc create s).2
                    = Handler group stream uq si ms mc ∅ ∅ [] false).
    { unfold __init__, bind, modify_self. destruct create; [|reflexivity].
      match goal with
      | |- context [_idempotent_create _ ?s0] =>
          destruct (idempotent_create_call_frame cwl_client
                      (CreateLogGroup group) s0) as [r ->]
      end.
      destruct r as [[]|x]; reflexivity. }
    rewrite Hself. unfold registry_ok. cbn [queues sequence_tokens threads map].
    split; [|split].
    + intros k [q Hq]. rewrite lookup_empty in Hq. discriminate.
    + intros k. split; [intros []|].
      intros [q Hq]. rewrite lookup_empty in Hq. discriminate.
    + constructor.
  - intros message s (Htok & Hthreads & Hnodup).
    destruct (emit_registries message s) as [Hgrow [[Hdom Hth]|(Hnew & Hnewtok & Hth & Hdom)]].
    + unfold registry_ok. rewrite Hth. split; [|split].
      * intros k Hk. apply Hgrow, Htok, Hdom, Hk.
      * intros k. rewrite Hdom. apply Hthreads.
      * exact Hnodup.
    + unfold registry_ok. rewrite Hth. split; [|split].
      * intros k Hk. apply Hdom in Hk as [<-|Hk]; [exact Hnewtok|].
        apply Hgrow, Htok, Hk.
      * intros k. rewrite Hdom, in_app_iff, Hthreads. simpl. tauto.
      * apply NoDup_app. split; [exact Hnodup|]. split; [|apply NoDup_singleton].
        intros k Hk Hk'. apply list_elem_of_In in Hk, Hk'.
        destruct Hk' as [<-|[]]. apply Hthreads in Hk as [q Hq].
        rewrite Hnew in Hq. discriminate.
  - intros s (Htok & Hthreads & Hnodup). rewrite flush_signal_spec.
    unfold registry_ok.
    cbn [snd self queues sequence_tokens threads set_queues set_shutting_down].
    split; [|split].
    + intros k Hk. rewrite lookup_fmap in Hk. apply fmap_is_Some in Hk. auto.
    + intros k. rewrite lookup_fmap, fmap_is_Some. apply Hthreads.
    + exact Hnodup.
Qed.

(** X11.  [flush] waits for the workers.  If the workers make no progress
    while it waits, [flush] returns at once when the handler has no queue,
    and never returns when it has one, since the sentinel it has just put is
    an unfinished task of that queue. *)
Theorem flush_waits_for_workers s :
  (queues (self s) = ∅ →
   flush (fun s1 => s1) s = Some (Return tt, (flush_signal s).2))
  ∧ (queues (self s) ≠ ∅ → flush (fun s1 => s1) s = None).
Proof.
  unfold flush. rewrite flush_signal_spec.
  cbn [snd self queues set_queues set_shutting_down]. split.
  - intros Hq.
    assert (Hj : flush_joined
                   (set_queues (fmap (put END)) (set_shutting_down true (self s)))
                 = true).
    { apply flush_joined_spec. intros k q.
      cbn [queues set_queues set_shutting_down]. rewrite Hq, fmap_empty, lookup_empty.
      discriminate. }
    rewrite Hj. reflexivity.
  - intros Hq. destruct (map_choose _ Hq) as (k & q & Hk).
    destruct (flush_joined _) eqn:Hj; [|reflexivity].
    exfalso.
    pose proof (proj1 (flush_joined_spec _) Hj k (put END q)) as H0.
    cbn [queues set_queues set_shutting_down] in H0.
    rewrite lookup_fmap, Hk in H0. specialize (H0 eq_refl). discriminate.
Qed.



End EmitEffects.

(** ** From [emit] to the service *)

Section Pipeline.

Variable cwl_client : list (request * reply) → request → reply.
Variable format : LogRecord → result rendered.
Variable json_dumps : list (pystr * pystr) → result pystr.


End Pipeline.

(** * Instances *)

(** C1, at its failing input.  The stream ["web"] has no token yet and the
    service accepts the batch, returning the token ["T1"].  After the
    submission the stored token of the stream is still [None], and the next
    submission on the stream carries no token. *)
Theorem submit_batch_does_not_store_token :
  let out := _submit_batch accepting_client [ev 1 "A"] (str "web") 5 web_state in
  let next := _submit_batch accepting_client [ev 2 "B"] (str "web") 5 out.2 in
  out.1 = Return tt
  ∧ calls (outside out.2)
    = [(PutLogEvents (PutKwargs (str "watchtower") (str "web") [ev 1 "A"] None),
        Returns (Response (Some (str "T1")) None))]
  ∧ sequence_tokens (self out.2) !! str "web" = Some None
  ∧ calls (outside next.2)
    = calls (outside out.2) ++
      [(PutLogEvents (PutKwargs (str "watchtower") (str "web") [ev 2 "B"] None),
        Returns (Response (Some (str "T1")) None))].
Proof. vm_compute. repeat split. Qed.

(** C2, as stated, fails, on the example of the specification:
    [max_batch_size] is 100 and two events of 80 characters arrive.  Each is
    submitted in a batch of its own, of 106 accounted bytes. *)
Lemma oversized_event_exceeds_max_batch_size :
  let e1 := Event 1 (payload 80) in
  let e2 := Event 2 (payload 80) in
  let out := batch_sender accepting_client [arrives e1; arrives e2; sentinel] 0
               (str "web") 60 100 3 (State (web_handler 100 3) quiet) in
  handed out.1 = [[]; [e1]; [e2]]
  ∧ batch_size [e1] = 106
  ∧ calls (outside out.2)
    = [(PutLogEvents (PutKwargs (str "watchtower") (str "web") [e1] None),
        Returns (Response (Some (str "T1")) None));
       (PutLogEvents (PutKwargs (str "watchtower") (str "web") [e2] None),
        Returns (Response (Some (str "T1")) None))]
  ∧ ¬ Forall (fun b => len b <= 3 ∧ batch_size b <= 100) (handed out.1).
Proof.
  intros e1 e2 out.
  assert (Hh : handed out.1 = [[]; [e1]; [e2]]) by (vm_compute; reflexivity).
  split; [exact Hh|]. split; [reflexivity|]. split; [vm_compute; reflexivity|].
  rewrite Hh. intros H.
  apply Forall_cons in H as [_ H]. apply Forall_cons in H as [[_ H] _].
  vm_compute in H. apply H. reflexivity.
Qed.


(** C8, as stated, fails: a handler that does not use queues delivers a
    record that arrives after the shutdown, and issues no warning. *)
Lemma late_arrival_delivered_without_queues :
  let s := State (sample_handler false true 100 3) quiet in
  let out := emit accepting_client plain_format no_json db_record s in
  shutting_down (self s) = true
  ∧ out.1 = Return tt
  ∧ warnings (outside out.2) = []
  ∧ calls (outside out.2)
    = [(CreateLogStream (str "watchtower") (str "db"),
        Returns (Response (Some (str "T1")) None));
       (PutLogEvents (PutKwargs (str "watchtower") (str "db")
                                [Event 1500 (str "db")] None),
        Returns (Response (Some (str "T1")) None))].
Proof. vm_compute. repeat split. Qed.

(** C10, as stated, fails: a handler that does not use queues creates no
    queue and starts no worker for the unseen stream, and it delivers the
    record instead of discarding it. *)
Lemma unseen_stream_without_queues_gets_no_worker :
  let s := State (sample_handler false true 100 3) quiet in
  let out := emit accepting_client plain_format no_json db_record s in
  shutting_down (self s) = true
  ∧ sequence_tokens (self s) !! str "db" = None
  ∧ queues (self s) !! str "db" = None
  ∧ sequence_tokens (self out.2) !! str "db" = Some None
  ∧ queues (self out.2) !! str "db" = None
  ∧ threads (self out.2) = []
  ∧ warnings (outside out.2) = []
  ∧ ∃ rp, last (calls (outside out.2))
          = Some (PutLogEvents (PutKwargs (str "watchtower") (str "db")
                                          [Event 1500 (str "db")] None), rp).
Proof. vm_compute. repeat split. eexists. reflexivity. Qed.

(** C10, as stated, fails also on a handler that uses queues, for a record
    whose formatting raises: the stream is created and has its token, and
    [emit] raises before it creates the queue, starts the thread or issues
    the warning. *)
Lemma unseen_stream_unrenderable_record_gets_no_queue :
  let s := State (sample_handler true true 100 3) quiet in
  let out := emit accepting_client failing_format no_json db_record s in
  out.1 = Raise (OtherError (str "TypeError"))
  ∧ calls (outside out.2)
    = [(CreateLogStream (str "watchtower") (str "db"),
        Returns (Response (Some (str "T1")) None))]
  ∧ sequence_tokens (self out.2) !! str "db" = Some None
  ∧ queues (self out.2) !! str "db" = None
  ∧ threads (self out.2) = []
  ∧ warnings (outside out.2) = [].
Proof. vm_compute. repeat split. Qed.


(** The property of C5 on the example of the specification, with two events
    of equal timestamp. *)
Lemma submitted_events_sorted_witness :
  let batch := [ev 5 "A"; ev 2 "B"; ev 8 "C"; ev 2 "D"] in
  batch ≠ []
  ∧ sorted batch = [ev 2 "B"; ev 2 "D"; ev 5 "A"; ev 8 "C"]
  ∧ ∃ tr,
      (_submit_batch stale_once_client batch (str "web") 5 web_state).2
      = record_calls tr web_state
      ∧ tr ≠ []
      ∧ Forall (fun c => ∃ token,
                  c.1 = PutLogEvents (PutKwargs (str "watchtower") (str "web")
                                                (sorted batch) token)) tr.
Proof.
  intros batch.
  assert (Hne : batch ≠ []) by discriminate.
  destruct (submitted_events_sorted stale_once_client batch (str "web") 5
              web_state Hne) as (tr & Heq & Hall & Hcall & _).
  split; [exact Hne|]. split; [reflexivity|].
  exists tr. split; [exact Heq|]. split; [|exact Hall].
  apply Hcall; [exists None; reflexivity|reflexivity].
Defined.

(** The property of C6 on a service that rejects the first call with a stale
    token: the second call carries the token of the rejection. *)
Lemma stale_token_retried_within_bound_witness :
  let out := _submit_batch stale_once_client [ev 1 "A"] (str "web") 5 web_state in
  ∃ tr,
    out.2 = record_calls tr web_state
    ∧ (length tr ≤ 5)%nat
    ∧ ∃ kw e rp,
        tr !! 0%nat = Some (PutLogEvents kw, Raises (ClientError e))
        ∧ Code e = Some (str "InvalidSequenceTokenException")
        ∧ tr !! 1%nat
          = Some (PutLogEvents (PutKwargs (logGroupName kw) (logStreamName kw)
                                          (logEvents kw) (Some (str "4957"))),
                  rp).
Proof.
  intros out.
  destruct (stale_token_retried_within_bound stale_once_client [ev 1 "A"]
              (str "web") 5 web_state) as (tr & Heq & Hlen & Hretry & _).
  exists tr. split; [exact Heq|]. split; [exact Hlen|].
  assert (Htr : calls (outside out.2) = tr)
    by (unfold out; rewrite Heq; reflexivity).
  set (kw := PutKwargs (str "watchtower") (str "web") [ev 1 "A"] None).
  set (e := ErrorResponse (Some (str "InvalidSequenceTokenException"))
              (str "The given sequenceToken is invalid. The next expected sequenceToken is: 4957")).
  assert (H0 : tr !! 0%nat = Some (PutLogEvents kw, Raises (ClientError e)))
    by (rewrite <- Htr; vm_compute; reflexivity).
  destruct (Hretry 0%nat kw e H0 (or_intror eq_refl)) as [rp Hrp];
    [simpl; lia|].
  exists kw, e, rp. split; [exact H0|]. split; [reflexivity|exact Hrp].
Defined.

(** The property of C7 on a service on which the stream exists already. *)
Lemma idempotent_create_and_initial_token_witness :
  let c := call stale_once_client (CreateLogStream (str "watchtower") (str "web")) in
  ∃ e s1,
    c web_state = (Raise (ClientError e), s1)
    ∧ Code e = Some (str "ResourceAlreadyExistsException")
    ∧ _idempotent_create c web_state = (Return tt, s1).
Proof.
  intros c. eexists _, _.
  assert (Hc : c web_state
               = (Raise (ClientError
                    (ErrorResponse (Some (str "ResourceAlreadyExistsException"))
                       (str "The specified log stream already exists"))),
                  record_calls
                    [(CreateLogStream (str "watchtower") (str "web"),
                      stale_once_client [] (CreateLogStream (str "watchtower") (str "web")))]
                    web_state)) by reflexivity.
  split; [exact Hc|]. split; [reflexivity|].
  exact (proj1 (idempotent_create_and_initial_token stale_once_client
                  plain_format no_json) _ c web_state _ _ Hc eq_refl).
Defined.

(** The property of C8.  On a handler that was flushed with one queue, the
    late record for the unseen stream ["db"] only has its stream created.  On
    a handler with the queue of ["web"], in which one event waits, the worker
    delivers it and reaches the sentinel, and [flush] returns; on a service
    that denies the delivery the worker is ended, and [flush] does not
    return. *)
Lemma late_arrivals_discarded_in_queue_mode_witness :
  let s := State (Handler (str "watchtower") None true 60 1000 3
                          (<[str "web" := put END empty_queue]> ∅)
                          (<[str "web" := None]> ∅) [] true) quiet in
  let out := emit accepting_client plain_format no_json db_record s in
  let q := Queue [Msg (ev 1 "A")] 1 in
  let s0 := State (Handler (str "watchtower") None true 60 1000 3
                           {[str "web" := q]} {[str "web" := None]} [] false)
                  quiet in
  let polls := [arrives (ev 1 "A"); sentinel] in
  shutting_down (self s) = true
  ∧ out.1 = Return tt
  ∧ queues (self out.2) !! str "web" = Some (put END empty_queue)
  ∧ queues (self out.2) !! str "db" = Some empty_queue
  ∧ warnings (outside out.2) = [late_warning]
  ∧ (∃ tl, calls (outside out.2) = tl
           ∧ Forall (fun c => c.1 = CreateLogStream (str "watchtower") (str "db"))
                    tl)
  ∧ (∃ s2, flush (run_worker accepting_client polls 0 (str "web")) s0
           = Some (Return tt, s2)
           ∧ queues (self s2) !! str "web" = Some empty_queue)
  ∧ flush (run_worker denying_client polls 0 (str "web")) s0 = None.
Proof.
  intros s out q s0 polls.
  destruct (late_arrivals_discarded_in_queue_mode accepting_client plain_format
              no_json db_record s eq_refl)
    as ((Hkeep & Hnew & _ & Hqueued) & _ & _ & Hyes).
  destruct (late_arrivals_discarded_in_queue_mode denying_client plain_format
              no_json db_record s eq_refl) as (_ & _ & _ & Hno).
  destruct (Hqueued eq_refl) as ((tl & Hcalls & Htl) & Hwarn & _ & Hret).
  assert (Hout : out.1 = Return tt) by (apply Hret; intros _; exact I).
  specialize (Hyes (str "web") q [ev 1 "A"] polls 0 s0
                   eq_refl eq_refl eq_refl eq_refl).
  specialize (Hno (str "web") q [ev 1 "A"] polls 0 s0
                  eq_refl eq_refl eq_refl eq_refl).
  cbv zeta in Hyes, Hno.
  assert (Hend : ending (batch_sender accepting_client polls 0 (str "web")
                           (send_interval (self s0)) (max_batch_size (self s0))
                           (max_batch_count (self s0)) (flush_signal s0).2).1
                 = Finished) by (vm_compute; reflexivity).
  assert (Hend' : ending (batch_sender denying_client polls 0 (str "web")
                            (send_interval (self s0)) (max_batch_size (self s0))
                            (max_batch_count (self s0)) (flush_signal s0).2).1
                  = Crashed (ClientError
                               (ErrorResponse (Some (str "AccessDeniedException"))
                                              (str "not authorized"))))
    by (vm_compute; reflexivity).
  rewrite Hend in Hyes. rewrite Hend' in Hno.
  split; [reflexivity|]. split; [exact Hout|].
  split; [apply Hkeep; vm_compute; reflexivity|].
  split; [vm_compute; reflexivity|].
  split; [exact (Hwarn Hout)|].
  split; [exists tl; split; [exact Hcalls|exact Htl]|].
  split; [|exact Hno].
  eexists. split; [exact Hyes|]. apply lookup_insert_eq.
Defined.

(** The property of C10 on a handler that is shutting down and has seen no
    stream, for a record whose event can be built and for one whose
    formatting raises. *)
Lemma unseen_stream_provisioned_after_shutdown_witness :
  let s := State (sample_handler true true 100 3) quiet in
  use_queues (self s) = true
  ∧ shutting_down (self s) = true
  ∧ sequence_tokens (self s) !! str "db" = None
  ∧ queues (self s) !! str "db" = None
  ∧ created_or_exists
      (accepting_client [] (CreateLogStream (str "watchtower") (str "db")))
  ∧ emit accepting_client plain_format no_json db_record s
    = (Return tt,
       State (Handler (str "watchtower") None true 60 100 3
                      (<[str "db" := empty_queue]> ∅)
                      (<[str "db" := None]> ∅)
                      [Thread (str "db") 60 100 3 true true] true)
             (World [(CreateLogStream (str "watchtower") (str "db"),
                      Returns (Response (Some (str "T1")) None))]
                    [late_warning] []))
  ∧ emit accepting_client failing_format no_json db_record s
    = (Raise (OtherError (str "TypeError")),
       State (Handler (str "watchtower") None true 60 100 3
                      ∅ (<[str "db" := None]> ∅) [] true)
             (World [(CreateLogStream (str "watchtower") (str "db"),
                      Returns (Response (Some (str "T1")) None))]
                    [] [])).
Proof.
  intros s.
  do 4 (split; [reflexivity|]). split; [exact I|]. split.
  - exact (unseen_stream_provisioned_after_shutdown accepting_client plain_format
             no_json db_record s eq_refl eq_refl eq_refl eq_refl I).
  - exact (unseen_stream_provisioned_after_shutdown accepting_client
             failing_format no_json db_record s eq_refl eq_refl eq_refl eq_refl I).
Defined.

(** ** Instances of the further properties *)

(** An instance of X5. *)
Lemma rsplit_last_takes_last_word_witness :
  (32%N ∉ str "4957")
  ∧ rsplit_last (str "The next expected sequenceToken is:" ++ 32%N :: str "4957")
    = str "4957".
Proof.
  assert (H : 32%N ∉ str "4957").
  { intros Hin. vm_compute in Hin.
    repeat (apply elem_of_cons in Hin as [Hin|Hin]; [discriminate|]).
    inversion Hin. }
  split; [exact H|].
  exact (proj1 (rsplit_last_takes_last_word
                  (str "The next expected sequenceToken is:") (str "4957") H)).
Defined.

(** An instance of X6. *)
Lemma sorted_keeps_in_order_batch_witness :
  StronglySorted by_timestamp [ev 1 "A"; ev 1 "B"; ev 3 "C"]
  ∧ sorted [ev 1 "A"; ev 1 "B"; ev 3 "C"] = [ev 1 "A"; ev 1 "B"; ev 3 "C"].
Proof.
  assert (H : StronglySorted by_timestamp [ev 1 "A"; ev 1 "B"; ev 3 "C"]).
  { repeat constructor; unfold by_timestamp; simpl; lia. }
  split; [exact H|]. exact (sorted_keeps_in_order_batch _ H).
Defined.

(** An instance of X4. *)
Lemma submit_unknown_stream_raises_key_error_witness :
  [ev 1 "A"] ≠ []
  ∧ sequence_tokens (self web_state) !! str "db" = None
  ∧ _submit_batch accepting_client [ev 1 "A"] (str "db") 5 web_state
    = (Raise (KeyError (str "db")), web_state).
Proof.
  assert (H1 : [ev 1 "A"] ≠ []) by discriminate.
  assert (H2 : sequence_tokens (self web_state) !! str "db" = None)
    by (vm_compute; reflexivity).
  split; [exact H1|]. split; [exact H2|].
  exact (submit_unknown_stream_raises_key_error accepting_client _ _ 5 _ H1 H2).
Defined.

(** An instance of X1. *)
Lemma submit_retries_exhausted_witness :
  let out := _submit_batch always_stale_client [ev 1 "A"] (str "web") 3 web_state in
  [ev 1 "A"] ≠ []
  ∧ sequence_tokens (self web_state) !! str "web" = Some None
  ∧ Forall stale_rejection (calls (outside out.2))
  ∧ out.1 = Raise UnboundLocalError
  ∧ length (calls (outside out.2)) = 3%nat.
Proof.
  intros out.
  assert (H1 : [ev 1 "A"] ≠ []) by discriminate.
  assert (H2 : sequence_tokens (self web_state) !! str "web" = Some None)
    by (vm_compute; reflexivity).
  destruct (submit_retries_exhausted always_stale_client [ev 1 "A"] (str "web")
              3 web_state None H1 H2) as (tr & Heq & Hex).
  assert (Htr : calls (outside out.2) = tr)
    by (unfold out; rewrite Heq; reflexivity).
  assert (Hall : Forall stale_rejection (calls (outside out.2))).
  { vm_compute calls. repeat constructor; eexists _, _; split; reflexivity. }
  split; [exact H1|]. split; [exact H2|]. split; [exact Hall|].
  rewrite Htr in Hall |- *. exact (Hex Hall).
Defined.

(** An instance of X2. *)
Lemma submit_returns_after_clean_accept_witness :
  let out := _submit_batch stale_once_client [ev 1 "A"] (str "web") 5 web_state in
  [ev 1 "A"] ≠ []
  ∧ out.1 = Return tt
  ∧ ∃ pre kw r,
      out.2 = record_calls (pre ++ [(PutLogEvents kw, Returns r)]) web_state
      ∧ rejectedLogEventsInfo r = None
      ∧ Forall stale_rejection pre.
Proof.
  intros out.
  assert (H1 : [ev 1 "A"] ≠ []) by discriminate.
  assert (H2 : out.1 = Return tt) by (vm_compute; reflexivity).
  split; [exact H1|]. split; [exact H2|].
  exact (submit_returns_after_clean_accept stale_once_client _ _ 5 _ H1 H2).
Defined.

(** An instance of X3. *)
Lemma submit_partial_rejection_is_fatal_witness :
  let out := _submit_batch partly_rejecting_client [ev 1 "A"] (str "web") 5
               web_state in
  ∃ r, out.1 = Raise (DeliveryFailure r)
       ∧ length (calls (outside out.2)) = 1%nat.
Proof.
  intros out.
  destruct (submit_partial_rejection_is_fatal partly_rejecting_client
              [ev 1 "A"] (str "web") 5 web_state) as (tr & Heq & Hfatal).
  assert (Htr : calls (outside out.2) = tr)
    by (unfold out; rewrite Heq; reflexivity).
  set (r := Response (Some (str "T2")) (Some [(str "tooOldLogEventEndIndex", 0)])).
  assert (H0 : tr !! 0%nat
               = Some (PutLogEvents (PutKwargs (str "watchtower") (str "web")
                                               [ev 1 "A"] None), Returns r))
    by (rewrite <- Htr; vm_compute; reflexivity).
  destruct (Hfatal 0%nat _ r _ H0 eq_refl) as [Hres Hlen].
  exists r. rewrite Htr. auto.
Defined.

(** An instance of X12. *)
Lemma worker_conserves_events_witness :
  let q := [arrives (ev 1 "A"); timeout; arrives (ev 2 "B")] in
  let r := (batch_sender accepting_client q 0 (str "web") 60 1000 3 web_state).1 in
  received q = map Msg [ev 1 "A"; ev 2 "B"]
  ∧ ∃ st, ending r = Waiting st
          ∧ concat (handed r) ++ cur_batch st = [ev 1 "A"; ev 2 "B"]
          ∧ tasks_done r = 2%nat.
Proof.
  intros q r.
  assert (H1 : received q = map Msg [ev 1 "A"; ev 2 "B"]) by reflexivity.
  split; [exact H1|].
  pose proof (worker_conserves_events accepting_client (str "web") 60 1000 3 q
                [ev 1 "A"; ev 2 "B"] 0 web_state H1) as H.
  fold r in H. destruct (ending r) as [|st|x] eqn:E.
  - destruct H.
  - exists st. destruct H as [Hcat Hdone]. auto.
  - vm_compute in E. discriminate E.
Defined.

(** An instance of X13. *)
Lemma worker_stops_at_sentinel_witness :
  got sentinel = Some END
  ∧ batch_sender accepting_client
      ([arrives (ev 1 "A")] ++ sentinel :: [arrives (ev 2 "B")])
      0 (str "web") 60 1000 3 web_state
    = batch_sender accepting_client ([arrives (ev 1 "A")] ++ [sentinel])
        0 (str "web") 60 1000 3 web_state.
Proof.
  split; [reflexivity|].
  exact (worker_stops_at_sentinel accepting_client (str "web") 60 1000 3
           [arrives (ev 1 "A")] sentinel [arrives (ev 2 "B")] 0 web_state
           eq_refl).
Defined.

(** An instance of X14. *)
Lemma idle_worker_makes_no_call_witness :
  Forall (fun p => got p = None) [timeout; timeout]
  ∧ (batch_sender denying_client [timeout; timeout] 0 (str "web") 60 1000 3
                  web_state).2 = web_state.
Proof.
  assert (H : Forall (fun p => got p = None) [timeout; timeout])
    by (repeat constructor).
  split; [exact H|].
  exact (proj1 (idle_worker_makes_no_call denying_client (str "web") 60 1000 3
                  [timeout; timeout] 0 web_state H)).
Defined.

(** An instance of X7: the second record cannot be formatted and is in no
    queue. *)
Lemma emit_enqueues_in_order_witness :
  let s' := emit_all accepting_client picky_format no_json
              [db_record; web_record; db_record] open_state in
  use_queues (self open_state) = true
  ∧ shutting_down (self open_state) = false
  ∧ (∀ history group k,
       created_or_exists (accepting_client history (CreateLogStream group k)))
  ∧ items_of (self s') (str "db")
    = [Msg (Event 1500 (str "db")); Msg (Event 1500 (str "db"))]
  ∧ items_of (self s') (str "web") = [].
Proof.
  intros s'.
  assert (Hc : ∀ history group k,
             created_or_exists (accepting_client history (CreateLogStream group k)))
    by (intros; exact I).
  split; [reflexivity|]. split; [reflexivity|]. split; [exact Hc|].
  subst s'. split.
  - rewrite (emit_enqueues_in_order accepting_client picky_format no_json
               [db_record; web_record; db_record] open_state eq_refl eq_refl Hc
               (str "db")).
    vm_compute. reflexivity.
  - rewrite (emit_enqueues_in_order accepting_client picky_format no_json
               [db_record; web_record; db_record] open_state eq_refl eq_refl Hc
               (str "web")).
    vm_compute. reflexivity.
Defined.

(** An instance of X8. *)
Lemma emit_without_queues_only_submits_witness :
  let s := State (sample_handler false true 100 3) quiet in
  let out := emit accepting_client plain_format no_json db_record s in
  use_queues (self s) = false
  ∧ queues (self out.2) = queues (self s)
  ∧ threads (self out.2) = threads (self s)
  ∧ warnings (outside out.2) = warnings (outside s).
Proof.
  intros s out.
  destruct (emit_without_queues_only_submits accepting_client plain_format
              no_json db_record s eq_refl) as (Hq & Ht & _ & Hw & _).
  split; [reflexivity|]. split; [exact Hq|]. split; [exact Ht|exact Hw].
Defined.

(** An instance of X10. *)
Lemma emit_known_stream_makes_no_call_witness :
  let out := emit denying_client plain_format no_json web_record web_state in
  use_queues (self web_state) = true
  ∧ is_Some (sequence_tokens (self web_state)
               !! target_stream (self web_state) web_record)
  ∧ out.1 = Return tt
  ∧ calls (outside out.2) = calls (outside web_state).
Proof.
  intros out.
  assert (H : is_Some (sequence_tokens (self web_state)
                         !! target_stream (self web_state) web_record))
    by (exists None; vm_compute; reflexivity).
  split; [reflexivity|]. split; [exact H|].
  exact (emit_known_stream_makes_no_call denying_client plain_format no_json
           web_record web_state eq_refl H).
Defined.

(** An instance of X9. *)
Lemma registry_invariant_witness :
  let s0 := (__init__ denying_client (str "watchtower") None true 60 100 3 true
                      (State (sample_handler false false 0 0) quiet)).2 in
  registry_ok (self s0)
  ∧ registry_ok (self (emit denying_client plain_format no_json db_record s0).2).
Proof.
  intros s0.
  destruct (registry_invariant denying_client plain_format no_json)
    as (Hinit & Hemit & _).
  assert (H0 : registry_ok (self s0)) by apply Hinit.
  split; [exact H0|]. apply Hemit, H0.
Defined.

(** An instance of X11. *)
Lemma flush_waits_for_workers_witness :
  queues (self web_state) ≠ ∅ ∧ flush (fun s1 => s1) web_state = None.
Proof.
  assert (H : queues (self web_state) ≠ ∅).
  { intros Hq. apply (f_equal (fun m => m !! str "web")) in Hq.
    vm_compute in Hq. discriminate Hq. }
  split; [exact H|]. exact (proj2 (flush_waits_for_workers web_state) H).
Defined.


(** An instance of X18. *)
Lemma worker_sends_fitting_events_together_witness :
  let evs := [ev 5 "A"; ev 2 "B"; ev 8 "C"] in
  let pre := [arrives (ev 5 "A"); arrives (ev 2 "B"); arrives (ev 8 "C")] in
  map got pre = map (fun e => Some (Msg e)) evs
  ∧ Forall (fun p => clock_at_test p < 0 + 60) pre
  ∧ batch_size evs <= 1000
  ∧ len evs <= 3
  ∧ got sentinel = Some END
  ∧ handed (batch_sender denying_client (pre ++ [sentinel]) 0 (str "web") 60
                         1000 3 web_state).1 = [evs].
Proof.
  intros evs pre.
  assert (H1 : map got pre = map (fun e => Some (Msg e)) evs) by reflexivity.
  assert (H2 : Forall (fun p => clock_at_test p < 0 + 60) pre)
    by (repeat constructor).
  assert (H3 : batch_size evs <= 1000) by (vm_compute; discriminate).
  assert (H4 : len evs <= 3) by (vm_compute; discriminate).
  repeat (split; [assumption || reflexivity|]).
  exact (worker_sends_fitting_events_together denying_client (str "web") 60 1000
           3 pre sentinel evs 0 web_state H1 H2 H3 H4 eq_refl).
Defined.
